(** * StochasticDiffusion: the numerical core of the diffusion visualisation

    A shallow embedding of [src/StochasticDiffusion/diffusion.js]
    (class [DiffusionModel]) and of [src/StochasticDiffusion/particle.js]:
    the particle classes [Particle] and [ParticleSystem], and the state,
    the coordinate and colour computations and the frame logic of
    [VisualizationApp].  Calls on the drawing context are not modelled.

    Numbers.  A JavaScript number is modelled by a real number of the
    Standard Library: [Math.exp], [Math.sin], [Math.cos], [Math.sqrt],
    [Math.log], [Math.abs], [Math.min] and [Math.PI] become [exp], [sin],
    [cos], [sqrt], [ln], [Rabs], [Rmin] and [PI].  Rounding, infinities and
    NaN (so also divisions by zero and logarithms of zero) are therefore
    outside the model; the one place where rounding could
    change a discrete outcome, the clock [t <- min(t + dt, 1.0)], is modelled
    a second time on IEEE binary64 numbers in [Module Float64Clock].

    Randomness.  [Math.random()] reads the next element of an explicit
    sequence of draws; code that calls it lives in the state monad [M]. *)

From Stdlib Require Import Reals Lra Lia List Bool Arith.
From Stdlib Require Floats.
Import ListNotations.

Local Open Scope R_scope.

(* ===================================================================== *)
(** ** JavaScript primitives used by the two source files *)
(* ===================================================================== *)

Module JS.

(** [a >= b] on numbers, as a boolean. *)
Definition geb (a b : R) : bool := if Rge_dec a b then true else false.

(** [a === b] on numbers. *)
Definition eqb (a b : R) : bool := if Req_dec_T a b then true else false.

(** [a < b] on numbers. *)
Definition ltb (a b : R) : bool := if Rlt_dec a b then true else false.

(** [Math.sign]: -1 for negative, +1 for positive, 0 for zero. *)
Definition Math_sign (x : R) : R :=
  if Rlt_dec 0 x then 1 else if Rlt_dec x 0 then -1 else 0.

(** The future results of [Math.random()], in the order of the calls. *)
Definition Rng : Type := nat -> R.

(** Computations that may call [Math.random()]. *)
Definition M (A : Type) : Type := Rng -> A * Rng.

Definition ret {A} (a : A) : M A := fun g => (a, g).

Definition bind {A B} (c : M A) (k : A -> M B) : M B :=
  fun g => let (a, g') := c g in k a g'.

Definition Math_random : M R := fun g => (g 0%nat, fun n => g (S n)).

(** [xs.findIndex(f)]; JavaScript's -1 is [None]. *)
Fixpoint findIndex {A} (f : A -> bool) (xs : list A) : option nat :=
  match xs with
  | [] => None
  | a :: xs' =>
      if f a then Some 0%nat
      else match findIndex f xs' with
           | Some i => Some (S i)
           | None => None
           end
  end.

(** [xs.splice(i, 1)]: the array without its element at index [i]. *)
Fixpoint splice1 {A} (i : nat) (xs : list A) : list A :=
  match xs, i with
  | [], _ => []
  | _ :: xs', O => xs'
  | a :: xs', S j => a :: splice1 j xs'
  end.

(** [xs.shift()]: the array without its first element. *)
Definition shift {A} (xs : list A) : list A := tl xs.

(** [xs.push(a)]. *)
Definition push {A} (xs : list A) (a : A) : list A := xs ++ [a].

End JS.

Declare Scope js_scope.
Delimit Scope js_scope with js.
Notation "x <- c ;; k" := (JS.bind c (fun x => k))
  (at level 61, c at next level, right associativity) : js_scope.
Local Open Scope js_scope.

(* ===================================================================== *)
(** ** diffusion.js: class DiffusionModel *)
(* ===================================================================== *)

Module DiffusionModel.

Record DiffusionModel : Type := {
  noiseMean : R;
  noiseStd : R;
  cleanMode1 : R;
  cleanMode2 : R;
  cleanStd : R;
  modeWeight : R;
  tMin : R;
  tMax : R
}.

(** [new DiffusionModel()]. *)
Definition new : DiffusionModel := {|
  noiseMean := 0.0;
  noiseStd := 0.7;
  cleanMode1 := -1.0;
  cleanMode2 := 1.0;
  cleanStd := 0.3;
  modeWeight := 0.5;
  tMin := 0.0;
  tMax := 1.0
|}.

Definition gaussian (x mean std : R) : R :=
  let variance := std * std in
  let coefficient := 1.0 / sqrt (2 * PI * variance) in
  let exponent := -0.5 * ((x - mean) / std) ^ 2 in
  coefficient * exp exponent.

Definition getCleanDistribution (this : DiffusionModel) (x : R) : R :=
  let g1 := gaussian x (cleanMode1 this) (cleanStd this) in
  let g2 := gaussian x (cleanMode2 this) (cleanStd this) in
  modeWeight this * g1 + (1 - modeWeight this) * g2.

Definition getNoisyDistribution (this : DiffusionModel) (x t : R) : R :=
  let noiseDist := gaussian x (noiseMean this) (noiseStd this) in
  let cleanDist := getCleanDistribution this x in
  (1 - t) * noiseDist + t * cleanDist.

Definition computeVectorField (this : DiffusionModel) (x t : R) : R :=
  let distToMode1 := Rabs (x - cleanMode1 this) in
  let distToMode2 := Rabs (x - cleanMode2 this) in
  let weight1 := exp (- distToMode1 * 2) * (1 + 0.3 * sin (t * PI)) in
  let weight2 := exp (- distToMode2 * 2) * (1 + 0.3 * cos (t * PI)) in
  let totalWeight := weight1 + weight2 in
  let targetX :=
    (weight1 * cleanMode1 this + weight2 * cleanMode2 this) / totalWeight in
  let direction := targetX - x in
  let timeScale := 1.0 - t * 0.2 in
  let curvature := sin (t * PI * 2) * 0.3 * (1 - t) in
  let centerComponent := - x * 0.4 * exp (- t * 1.5) * (1 - t) in
  let velocity :=
    direction * timeScale * 1.0 +
    curvature * JS.Math_sign x * (1 - t) +
    centerComponent in
  velocity.

Definition flowMatchingStep (this : DiffusionModel) (x t dt : R) : R :=
  let velocity := computeVectorField this x t in
  x + velocity * dt.

(** The Box-Muller variate built from two uniform draws. *)
Definition boxMuller (u1 u2 : R) : R :=
  sqrt (-2 * ln u1) * cos (2 * PI * u2).

Definition sampleGaussian (mean std : R) : JS.M R :=
  u1 <- JS.Math_random ;;
  u2 <- JS.Math_random ;;
  let z0 := boxMuller u1 u2 in
  JS.ret (mean + std * z0).

Definition ddpmStep (this : DiffusionModel) (x t dt stochasticity : R)
  : JS.M R :=
  let deterministic := flowMatchingStep this x t dt in
  let noiseScale := sqrt dt * (1 - t) * stochasticity in
  noise <- sampleGaussian 0 noiseScale ;;
  JS.ret (deterministic + noise).

Definition sampleNoisy (this : DiffusionModel) : JS.M R :=
  sampleGaussian (noiseMean this) (noiseStd this).

Definition evolveParticle (this : DiffusionModel) (x t dt stochasticity : R)
  : JS.M R :=
  if JS.eqb stochasticity 0 then
    JS.ret (flowMatchingStep this x t dt)
  else
    ddpmStep this x t dt stochasticity.

Definition getMaxDensity (this : DiffusionModel) : R :=
  let noiseMax := gaussian (noiseMean this) (noiseMean this) (noiseStd this) in
  let cleanMax1 :=
    gaussian (cleanMode1 this) (cleanMode1 this) (cleanStd this) in
  let cleanMax2 :=
    gaussian (cleanMode2 this) (cleanMode2 this) (cleanStd this) in
  Rmax (Rmax noiseMax cleanMax1) cleanMax2 * 1.2.

End DiffusionModel.

(* ===================================================================== *)
(** ** particle.js: class Particle *)
(* ===================================================================== *)

(** A trajectory entry, the object literal [{ x: x, t: t }]. *)
Module TrajectoryPoint.
Record TrajectoryPoint : Type := { x : R; t : R }.
End TrajectoryPoint.

(** The three numbers [generateColor] formats into its [hsl(...)] string. *)
Module Color.
Record Color : Type := { hue : R; saturation : R; lightness : R }.
End Color.

Module Particle.

Record Particle : Type := {
  x : R;
  t : R;
  trajectory : list TrajectoryPoint.TrajectoryPoint;
  active : bool;
  color : Color.Color
}.

Definition generateColor : JS.M Color.Color :=
  r1 <- JS.Math_random ;;
  r2 <- JS.Math_random ;;
  r3 <- JS.Math_random ;;
  let hue := r1 * 360 in
  let saturation := 60 + r2 * 40 in
  let lightness := 50 + r3 * 30 in
  JS.ret {| Color.hue := hue;
            Color.saturation := saturation;
            Color.lightness := lightness |}.

(** [new Particle(x0, t0)]. *)
Definition new (x0 t0 : R) : JS.M Particle :=
  c <- generateColor ;;
  JS.ret {| x := x0;
            t := t0;
            trajectory := [ {| TrajectoryPoint.x := x0;
                               TrajectoryPoint.t := t0 |} ];
            active := true;
            color := c |}.

(** The assignment [this.active = false]. *)
Definition deactivate (this : Particle) : Particle :=
  {| x := x this;
     t := t this;
     trajectory := trajectory this;
     active := false;
     color := color this |}.

Definition update (this : Particle)
    (diffusionModel : DiffusionModel.DiffusionModel)
    (dt stochasticity : R) : JS.M Particle :=
  if negb (active this) || JS.geb (t this) 1.0 then
    JS.ret (deactivate this)
  else
    newX <- DiffusionModel.evolveParticle diffusionModel
              (x this) (t this) dt stochasticity ;;
    let newT := Rmin (t this + dt) 1.0 in
    let pushed :=
      JS.push (trajectory this)
        {| TrajectoryPoint.x := newX; TrajectoryPoint.t := newT |} in
    JS.ret {| x := newX;
              t := newT;
              trajectory :=
                if (100 <? length pushed)%nat then JS.shift pushed
                else pushed;
              active := active this;
              color := color this |}.

Definition isComplete (this : Particle) : bool := JS.geb (t this) 1.0.

End Particle.

(* ===================================================================== *)
(** ** particle.js: class ParticleSystem *)
(* ===================================================================== *)

Module ParticleSystem.

Record ParticleSystem : Type := {
  particles : list Particle.Particle;
  maxParticles : nat
}.

(** [new ParticleSystem()]. *)
Definition new : ParticleSystem :=
  {| particles := []; maxParticles := 1000 |}.

(** One successful pass through the loop body's last two statements. *)
Definition spawnOne (this : ParticleSystem)
    (diffusionModel : DiffusionModel.DiffusionModel) : JS.M ParticleSystem :=
  x <- DiffusionModel.sampleNoisy diffusionModel ;;
  p <- Particle.new x 0 ;;
  JS.ret {| particles := JS.push (particles this) p;
            maxParticles := maxParticles this |}.

(** The [for] loop of [spawnParticles]; [count] iterations remain. *)
Fixpoint spawnParticles (count : nat)
    (diffusionModel : DiffusionModel.DiffusionModel)
    (this : ParticleSystem) : JS.M ParticleSystem :=
  match count with
  | O => JS.ret this
  | S count' =>
      if (maxParticles this <=? length (particles this))%nat then
        match JS.findIndex Particle.isComplete (particles this) with
        | Some completed =>
            this' <- spawnOne
                       {| particles := JS.splice1 completed (particles this);
                          maxParticles := maxParticles this |}
                       diffusionModel ;;
            spawnParticles count' diffusionModel this'
        | None => JS.ret this
        end
      else
        this' <- spawnOne this diffusionModel ;;
        spawnParticles count' diffusionModel this'
  end.

(** [this.particles.forEach(particle => particle.update(...))]. *)
Fixpoint forEach_update (ps : list Particle.Particle)
    (diffusionModel : DiffusionModel.DiffusionModel)
    (dt stochasticity : R) : JS.M (list Particle.Particle) :=
  match ps with
  | [] => JS.ret []
  | p :: ps' =>
      p' <- Particle.update p diffusionModel dt stochasticity ;;
      ps'' <- forEach_update ps' diffusionModel dt stochasticity ;;
      JS.ret (p' :: ps'')
  end.

Definition update (this : ParticleSystem)
    (diffusionModel : DiffusionModel.DiffusionModel)
    (dt stochasticity : R) : JS.M ParticleSystem :=
  ps <- forEach_update (particles this) diffusionModel dt stochasticity ;;
  JS.ret {| particles := ps; maxParticles := maxParticles this |}.

Definition getActiveParticles (this : ParticleSystem)
  : list Particle.Particle :=
  filter Particle.active (particles this).

Definition clear (this : ParticleSystem) : ParticleSystem :=
  {| particles := []; maxParticles := maxParticles this |}.

Definition cleanup (this : ParticleSystem) : ParticleSystem :=
  {| particles :=
       filter (fun p => negb (Particle.isComplete p)
                        || (0 <? length (Particle.trajectory p))%nat)
              (particles this);
     maxParticles := maxParticles this |}.

End ParticleSystem.

(* ===================================================================== *)
(** ** Call sequences on one population *)
(* ===================================================================== *)

(** What a driver can ask of a [ParticleSystem]. *)
Inductive Call : Type :=
| Spawn (count : nat)
| Advance (dt stochasticity : R)
| Clear
| Cleanup.

Definition call (diffusionModel : DiffusionModel.DiffusionModel)
    (c : Call) (ps : ParticleSystem.ParticleSystem)
  : JS.M ParticleSystem.ParticleSystem :=
  match c with
  | Spawn count => ParticleSystem.spawnParticles count diffusionModel ps
  | Advance dt stochasticity =>
      ParticleSystem.update ps diffusionModel dt stochasticity
  | Clear => JS.ret (ParticleSystem.clear ps)
  | Cleanup => JS.ret (ParticleSystem.cleanup ps)
  end.

Fixpoint run (diffusionModel : DiffusionModel.DiffusionModel)
    (cs : list Call) (ps : ParticleSystem.ParticleSystem)
  : JS.M ParticleSystem.ParticleSystem :=
  match cs with
  | [] => JS.ret ps
  | c :: cs' =>
      ps' <- call diffusionModel c ps ;;
      run diffusionModel cs' ps'
  end.

(** The population a driver holds after the calls [cs] on a fresh system,
    with [g] the draws [Math.random()] will return. *)
Definition population (diffusionModel : DiffusionModel.DiffusionModel)
    (cs : list Call) (g : JS.Rng) : list Particle.Particle :=
  ParticleSystem.particles (fst (run diffusionModel cs ParticleSystem.new g)).

(** A property of particles that creation establishes and [update] keeps. *)
Definition particle_invariant
    (diffusionModel : DiffusionModel.DiffusionModel)
    (P : Particle.Particle -> Prop) : Prop :=
  (forall x0 g, P (fst (Particle.new x0 0 g)))
  /\ (forall p dt stochasticity g,
        P p -> P (fst (Particle.update p diffusionModel dt stochasticity g))).

(** The capacity bound of one system. *)
Definition within_capacity (sys : ParticleSystem.ParticleSystem) : Prop :=
  (length (ParticleSystem.particles sys)
   <= ParticleSystem.maxParticles sys)%nat.

(** The state every call preserves: capacity 1000, at most that many
    particles, each satisfying [P]. *)
Definition good (P : Particle.Particle -> Prop)
    (sys : ParticleSystem.ParticleSystem) : Prop :=
  ParticleSystem.maxParticles sys = 1000%nat
  /\ within_capacity sys
  /\ Forall P (ParticleSystem.particles sys).

(* ===================================================================== *)
(** ** The end-to-end scenario: one state advanced by [evolveParticle] *)
(* ===================================================================== *)

(** [x <- evolve(x, t, dt, stochasticity); t <- min(t + dt, 1.0)],
    the two assignments of [Particle.update] on a bare [(x, t)] pair. *)
Definition evolveOnce (diffusionModel : DiffusionModel.DiffusionModel)
    (dt stochasticity : R) (s : R * R) : JS.M (R * R) :=
  let (x, t) := s in
  newX <- DiffusionModel.evolveParticle diffusionModel x t dt stochasticity ;;
  let newT := Rmin (t + dt) 1.0 in
  JS.ret (newX, newT).



(** [positionRange] of the driver in particle.js, line 145. *)
Definition positionRange : R * R := (-2.0, 2.0).

(* ===================================================================== *)
(** ** The velocity field as the specification words it *)
(* ===================================================================== *)

Module Spec.

(** The standard sign convention: negative -> -1, positive -> +1,
    zero -> 0. *)
Definition sign (x : R) : R :=
  match total_order_T x 0 with
  | inleft (left _) => -1
  | inleft (right _) => 0
  | inright _ => 1
  end.

(** Weight toward a mode: [exp(-2|x - mode|)] times its oscillation. *)
Definition weight (x mode oscillation : R) : R :=
  exp (-2 * Rabs (x - mode)) * oscillation.

Definition velocityField (mode1 mode2 x t : R) : R :=
  let w1 := weight x mode1 (1 + 0.3 * sin (PI * t)) in
  let w2 := weight x mode2 (1 + 0.3 * cos (PI * t)) in
  let n1 := w1 / (w1 + w2) in
  let n2 := w2 / (w1 + w2) in
  let target := n1 * mode1 + n2 * mode2 in
  let direction := target - x in
  let curvature := sin (2 * PI * t) * 0.3 * (1 - t) in
  let centerPull := - x * 0.4 * exp (-1.5 * t) * (1 - t) in
  direction * (1 - 0.2 * t) + curvature * sign x * (1 - t) + centerPull.

End Spec.

(* ===================================================================== *)
(** ** The clock of [Particle.update] on IEEE binary64 numbers *)
(* ===================================================================== *)

Module Float64Clock.

Import Floats.
Local Open Scope float_scope.




(** The driver's [this.dt = 0.02], the binary64 number nearest to 1/50. *)
Definition dt : float := 0x1.47ae147ae147bp-6.

End Float64Clock.

(* ===================================================================== *)
(** ** particle.js: class VisualizationApp, without the drawing calls *)
(* ===================================================================== *)

(** The two properties of the canvas element the class reads and writes. *)
Module Canvas.
Record Canvas : Type := { width : R; height : R }.
End Canvas.

(** A canvas position, the object literal [{ x: canvasX, y: canvasY }]. *)
Module CanvasPoint.
Record CanvasPoint : Type := { x : R; y : R }.
End CanvasPoint.

(** The numbers [densityToColor] formats into its [rgba(...)] string. *)
Module Rgba.
Record Rgba : Type := { r : Z; g : Z; b : Z; a : R }.
End Rgba.

(** The rectangle and colour of one [fillRect] call of [drawHeatmap]. *)
Module HeatmapCell.
End HeatmapCell.

Module VisualizationApp.

(** The fields of the class, except the drawing context [ctx] and the
    handle [animationId] of the scheduled frame. *)
Record VisualizationApp : Type := {
  canvas : Canvas.Canvas;
  diffusionModel : DiffusionModel.DiffusionModel;
  particleSystem : ParticleSystem.ParticleSystem;
  isPaused : bool;
  lastSpawnTime : R;
  lastFrameTime : R;
  stochasticity : R;
  particlesPerSecond : R;
  dt : R;
  showTrails : bool;
  positionRange : R * R;
  tRange : R * R;
  maxDensity : R;
  horizontalPadding : R;
  verticalPadding : R
}.

(** The assignment [this.canvas = c] to both canvas properties. *)
Definition set_canvas (c : Canvas.Canvas) (this : VisualizationApp)
  : VisualizationApp :=
  {| canvas := c;
     diffusionModel := diffusionModel this;
     particleSystem := particleSystem this;
     isPaused := isPaused this;
     lastSpawnTime := lastSpawnTime this;
     lastFrameTime := lastFrameTime this;
     stochasticity := stochasticity this;
     particlesPerSecond := particlesPerSecond this;
     dt := dt this;
     showTrails := showTrails this;
     positionRange := positionRange this;
     tRange := tRange this;
     maxDensity := maxDensity this;
     horizontalPadding := horizontalPadding this;
     verticalPadding := verticalPadding this |}.

(** The particle system after a mutating call on [this.particleSystem]. *)
Definition set_particleSystem (ps : ParticleSystem.ParticleSystem)
    (this : VisualizationApp) : VisualizationApp :=
  {| canvas := canvas this;
     diffusionModel := diffusionModel this;
     particleSystem := ps;
     isPaused := isPaused this;
     lastSpawnTime := lastSpawnTime this;
     lastFrameTime := lastFrameTime this;
     stochasticity := stochasticity this;
     particlesPerSecond := particlesPerSecond this;
     dt := dt this;
     showTrails := showTrails this;
     positionRange := positionRange this;
     tRange := tRange this;
     maxDensity := maxDensity this;
     horizontalPadding := horizontalPadding this;
     verticalPadding := verticalPadding this |}.

Definition set_isPaused (v : bool) (this : VisualizationApp)
  : VisualizationApp :=
  {| canvas := canvas this;
     diffusionModel := diffusionModel this;
     particleSystem := particleSystem this;
     isPaused := v;
     lastSpawnTime := lastSpawnTime this;
     lastFrameTime := lastFrameTime this;
     stochasticity := stochasticity this;
     particlesPerSecond := particlesPerSecond this;
     dt := dt this;
     showTrails := showTrails this;
     positionRange := positionRange this;
     tRange := tRange this;
     maxDensity := maxDensity this;
     horizontalPadding := horizontalPadding this;
     verticalPadding := verticalPadding this |}.

Definition set_lastSpawnTime (v : R) (this : VisualizationApp)
  : VisualizationApp :=
  {| canvas := canvas this;
     diffusionModel := diffusionModel this;
     particleSystem := particleSystem this;
     isPaused := isPaused this;
     lastSpawnTime := v;
     lastFrameTime := lastFrameTime this;
     stochasticity := stochasticity this;
     particlesPerSecond := particlesPerSecond this;
     dt := dt this;
     showTrails := showTrails this;
     positionRange := positionRange this;
     tRange := tRange this;
     maxDensity := maxDensity this;
     horizontalPadding := horizontalPadding this;
     verticalPadding := verticalPadding this |}.

Definition set_lastFrameTime (v : R) (this : VisualizationApp)
  : VisualizationApp :=
  {| canvas := canvas this;
     diffusionModel := diffusionModel this;
     particleSystem := particleSystem this;
     isPaused := isPaused this;
     lastSpawnTime := lastSpawnTime this;
     lastFrameTime := v;
     stochasticity := stochasticity this;
     particlesPerSecond := particlesPerSecond this;
     dt := dt this;
     showTrails := showTrails this;
     positionRange := positionRange this;
     tRange := tRange this;
     maxDensity := maxDensity this;
     horizontalPadding := horizontalPadding this;
     verticalPadding := verticalPadding this |}.

Definition set_stochasticity (v : R) (this : VisualizationApp)
  : VisualizationApp :=
  {| canvas := canvas this;
     diffusionModel := diffusionModel this;
     particleSystem := particleSystem this;
     isPaused := isPaused this;
     lastSpawnTime := lastSpawnTime this;
     lastFrameTime := lastFrameTime this;
     stochasticity := v;
     particlesPerSecond := particlesPerSecond this;
     dt := dt this;
     showTrails := showTrails this;
     positionRange := positionRange this;
     tRange := tRange this;
     maxDensity := maxDensity this;
     horizontalPadding := horizontalPadding this;
     verticalPadding := verticalPadding this |}.

Definition set_particlesPerSecond (v : R) (this : VisualizationApp)
  : VisualizationApp :=
  {| canvas := canvas this;
     diffusionModel := diffusionModel this;
     particleSystem := particleSystem this;
     isPaused := isPaused this;
     lastSpawnTime := lastSpawnTime this;
     lastFrameTime := lastFrameTime this;
     stochasticity := stochasticity this;
     particlesPerSecond := v;
     dt := dt this;
     showTrails := showTrails this;
     positionRange := positionRange this;
     tRange := tRange this;
     maxDensity := maxDensity this;
     horizontalPadding := horizontalPadding this;
     verticalPadding := verticalPadding this |}.

Definition set_showTrails (v : bool) (this : VisualizationApp)
  : VisualizationApp :=
  {| canvas := canvas this;
     diffusionModel := diffusionModel this;
     particleSystem := particleSystem this;
     isPaused := isPaused this;
     lastSpawnTime := lastSpawnTime this;
     lastFrameTime := lastFrameTime this;
     stochasticity := stochasticity this;
     particlesPerSecond := particlesPerSecond this;
     dt := dt this;
     showTrails := v;
     positionRange := positionRange this;
     tRange := tRange this;
     maxDensity := maxDensity this;
     horizontalPadding := horizontalPadding this;
     verticalPadding := verticalPadding this |}.

(** [resizeCanvas()], with [window.innerWidth] as an argument. *)
Definition resizeCanvas (this : VisualizationApp) (innerWidth : R)
  : VisualizationApp :=
  let padding := 80 in
  set_canvas {| Canvas.width := Rmin 1200 (innerWidth - padding);
                Canvas.height := 600 |} this.

(** The fields the constructor has assigned when it reaches
    [setupControls()]; [now1] and [now2] are its two readings of
    [performance.now()]. *)
Definition new (innerWidth now1 now2 : R) : VisualizationApp :=
  let model := DiffusionModel.new in
  {| canvas := {| Canvas.width := Rmin 1200 (innerWidth - 80);
                  Canvas.height := 600 |};
     diffusionModel := model;
     particleSystem := ParticleSystem.new;
     isPaused := false;
     lastSpawnTime := now1;
     lastFrameTime := now2;
     stochasticity := 0.5;
     particlesPerSecond := 10;
     dt := 0.02;
     showTrails := true;
     positionRange := (-2.0, 2.0);
     tRange := (0, 1);
     maxDensity := DiffusionModel.getMaxDensity model;
     horizontalPadding := 0.05;
     verticalPadding := 0.1 |}.

Definition worldToCanvas (this : VisualizationApp) (t x : R)
  : CanvasPoint.CanvasPoint :=
  let paddingX := Canvas.width (canvas this) * horizontalPadding this in
  let paddingY := Canvas.height (canvas this) * verticalPadding this in
  let usableWidth := Canvas.width (canvas this) - 2 * paddingX in
  let usableHeight := Canvas.height (canvas this) - 2 * paddingY in
  let distributionWidth := Canvas.width (canvas this) * 0.12 in
  let heatmapStartX := paddingX + distributionWidth in
  let heatmapWidth := usableWidth - 2 * distributionWidth in
  let canvasX :=
    heatmapStartX
    + ((t - fst (tRange this)) / (snd (tRange this) - fst (tRange this)))
      * heatmapWidth in
  let canvasY :=
    paddingY
    + ((snd (positionRange this) - x)
       / (snd (positionRange this) - fst (positionRange this)))
      * usableHeight in
  {| CanvasPoint.x := canvasX; CanvasPoint.y := canvasY |}.

Definition canvasToWorld (this : VisualizationApp) (canvasX canvasY : R)
  : TrajectoryPoint.TrajectoryPoint :=
  let paddingX := Canvas.width (canvas this) * horizontalPadding this in
  let paddingY := Canvas.height (canvas this) * verticalPadding this in
  let usableWidth := Canvas.width (canvas this) - 2 * paddingX in
  let usableHeight := Canvas.height (canvas this) - 2 * paddingY in
  let t :=
    ((canvasX - paddingX) / usableWidth)
    * (snd (tRange this) - fst (tRange this)) + fst (tRange this) in
  let x :=
    snd (positionRange this)
    - ((canvasY - paddingY) / usableHeight)
      * (snd (positionRange this) - fst (positionRange this)) in
  {| TrajectoryPoint.x := x; TrajectoryPoint.t := t |}.

(** The body of the first loop of [drawVerticalDistribution] at index
    [i]: the point it pushes on [path]. *)
Definition distributionPoint (this : VisualizationApp) (t : R)
    (isLeft : bool) (i : nat) : CanvasPoint.CanvasPoint :=
  let steps := 400 in
  let dx := (snd (positionRange this) - fst (positionRange this)) / steps in
  let paddingX := Canvas.width (canvas this) * horizontalPadding this in
  let paddingY := Canvas.height (canvas this) * verticalPadding this in
  let usableHeight := Canvas.height (canvas this) - 2 * paddingY in
  let distributionWidth := Canvas.width (canvas this) * 0.12 in
  let canvasX :=
    if isLeft then paddingX else Canvas.width (canvas this) - paddingX in
  let x := fst (positionRange this) + INR i * dx in
  let density :=
    DiffusionModel.getNoisyDistribution (diffusionModel this) x t in
  let normalizedDensity := Rmax 0 (density / maxDensity this) in
  let minWidth := distributionWidth * 0.01 in
  let width := Rmax minWidth (normalizedDensity * distributionWidth) in
  let canvasY :=
    paddingY
    + ((snd (positionRange this) - x)
       / (snd (positionRange this) - fst (positionRange this)))
      * usableHeight in
  let curveX := if isLeft then canvasX + width else canvasX - width in
  {| CanvasPoint.x := curveX; CanvasPoint.y := canvasY |}.

(** The array [path] of [drawVerticalDistribution] after its first loop,
    [for (let i = 0; i <= steps; i++)] with [steps = 400]. *)
Definition distributionPath (this : VisualizationApp) (t : R)
    (isLeft : bool) : list CanvasPoint.CanvasPoint :=
  map (distributionPoint this t isLeft) (seq 0 401).

Definition densityToColor (density : R) : Rgba.Rgba :=
  let density := Rmax 0 (Rmin 1 density) in
  if JS.ltb density 0.2 then
    let t := density / 0.2 in
    {| Rgba.r := 0;
       Rgba.g := Zfloor (150 * t);
       Rgba.b := Zfloor (100 + 155 * t);
       Rgba.a := 0.9 |}
  else if JS.ltb density 0.4 then
    let t := (density - 0.2) / 0.2 in
    {| Rgba.r := 0;
       Rgba.g := Zfloor (150 + 105 * t);
       Rgba.b := Zfloor (255 - 105 * t);
       Rgba.a := 0.9 |}
  else if JS.ltb density 0.6 then
    let t := (density - 0.4) / 0.2 in
    {| Rgba.r := Zfloor (255 * t);
       Rgba.g := 255;
       Rgba.b := Zfloor (150 - 150 * t);
       Rgba.a := 0.9 |}
  else if JS.ltb density 0.8 then
    let t := (density - 0.6) / 0.2 in
    {| Rgba.r := 255;
       Rgba.g := Zfloor (255 - 105 * t);
       Rgba.b := 0;
       Rgba.a := 0.9 |}
  else
    let t := (density - 0.8) / 0.2 in
    {| Rgba.r := 255;
       Rgba.g := Zfloor (150 - 100 * t);
       Rgba.b := 0;
       Rgba.a := 0.9 |}.


(** The canvas points [drawParticle] strokes as the trail of a particle:
    none unless trails are shown and the trajectory has two points. *)
Definition trailPoints (this : VisualizationApp) (particle : Particle.Particle)
  : list CanvasPoint.CanvasPoint :=
  if showTrails this && (1 <? length (Particle.trajectory particle))%nat then
    map (fun point =>
           worldToCanvas this (TrajectoryPoint.t point)
             (TrajectoryPoint.x point))
        (Particle.trajectory particle)
  else [].

(** [update(deltaTime)]; [currentTime] is its reading of
    [performance.now()]. *)
Definition update (this : VisualizationApp) (deltaTime currentTime : R)
  : JS.M VisualizationApp :=
  if isPaused this then JS.ret this
  else
    let timeSinceLastSpawn := currentTime - lastSpawnTime this in
    let spawnInterval := 1000 / particlesPerSecond this in
    this1 <- (if JS.geb timeSinceLastSpawn spawnInterval then
                ps <- ParticleSystem.spawnParticles 1 (diffusionModel this)
                        (particleSystem this) ;;
                JS.ret (set_lastSpawnTime currentTime
                          (set_particleSystem ps this))
              else JS.ret this) ;;
    let frameScale := Rmin (deltaTime / 16) 2.0 in
    let dt := dt this1 * frameScale in
    ps <- ParticleSystem.update (particleSystem this1) (diffusionModel this1)
            dt (stochasticity this1) ;;
    let this2 := set_particleSystem ps this1 in
    r <- JS.Math_random ;;
    if JS.ltb r 0.1 then
      JS.ret (set_particleSystem
                (ParticleSystem.cleanup (particleSystem this2)) this2)
    else JS.ret this2.

(** One run of [animate()]: [now1] is its own reading of
    [performance.now()], [now2] the reading [update] takes.  [render()]
    only draws, and the request for the next frame is left to the
    caller. *)
Definition animate (this : VisualizationApp) (now1 now2 : R)
  : JS.M VisualizationApp :=
  if isPaused this then JS.ret this
  else
    let currentTime := now1 in
    let deltaTime :=
      currentTime
      - (if JS.eqb (lastFrameTime this) 0 then currentTime
         else lastFrameTime this) in
    let this1 := set_lastFrameTime currentTime this in
    update this1 deltaTime now2.

End VisualizationApp.

(** What the browser can deliver to the application: an animation frame
    and the listeners registered by [setupControls] and the constructor,
    each with the values it reads. *)
Inductive Event : Type :=
| Frame (now1 now2 : R)
| StochasticityInput (value : R)
| ParticleCountInput (value : R)
| ResetClick (now : R)
| PauseClick (now1 now2 : R)
| ShowTrailsChange (checked : bool)
| WindowResize (innerWidth : R).

Definition handle (e : Event) (app : VisualizationApp.VisualizationApp)
  : JS.M VisualizationApp.VisualizationApp :=
  match e with
  | Frame now1 now2 => VisualizationApp.animate app now1 now2
  | StochasticityInput value =>
      JS.ret (VisualizationApp.set_stochasticity value app)
  | ParticleCountInput value =>
      JS.ret (VisualizationApp.set_particlesPerSecond value app)
  | ResetClick now =>
      JS.ret (VisualizationApp.set_lastSpawnTime now
                (VisualizationApp.set_particleSystem
                   (ParticleSystem.clear
                      (VisualizationApp.particleSystem app)) app))
  | PauseClick now1 now2 =>
      let app' :=
        VisualizationApp.set_isPaused
          (negb (VisualizationApp.isPaused app)) app in
      if negb (VisualizationApp.isPaused app') then
        VisualizationApp.animate app' now1 now2
      else JS.ret app'
  | ShowTrailsChange checked =>
      JS.ret (VisualizationApp.set_showTrails checked app)
  | WindowResize innerWidth =>
      JS.ret (VisualizationApp.resizeCanvas app innerWidth)
  end.

Fixpoint session (es : list Event)
    (app : VisualizationApp.VisualizationApp)
  : JS.M VisualizationApp.VisualizationApp :=
  match es with
  | [] => JS.ret app
  | e :: es' =>
      app' <- handle e app ;;
      session es' app'
  end.

(* ===================================================================== *)
(** ** Predicates on particles, trajectories and call sequences *)
(* ===================================================================== *)

(** A particle [update] will move: active and not yet at t = 1.0. *)
Definition running (p : Particle.Particle) : bool :=
  Particle.active p && negb (JS.geb (Particle.t p) 1.0).

(** The point [{ x: this.x, t: this.t }] of a particle's present state. *)
Definition currentPoint (p : Particle.Particle)
  : TrajectoryPoint.TrajectoryPoint :=
  {| TrajectoryPoint.x := Particle.x p; TrajectoryPoint.t := Particle.t p |}.

(** Each number is at most its successor in the list. *)
Fixpoint nondecreasing (l : list R) : Prop :=
  match l with
  | [] => True
  | a :: l' =>
      match l' with
      | [] => True
      | b :: _ => a <= b /\ nondecreasing l'
      end
  end.

(** The recorded times of a particle, oldest first. *)
Definition trajectoryTimes (p : Particle.Particle) : list R :=
  map TrajectoryPoint.t (Particle.trajectory p).

(** Every advance of the sequence has a time step satisfying [Q]. *)
Definition steps_satisfy (Q : R -> Prop) (cs : list Call) : Prop :=
  Forall (fun c => match c with
                   | Advance dt _ => Q dt
                   | _ => True
                   end) cs.



(** The fields of the application no listener and no frame assigns: they
    keep the values the constructor gave them. *)
Definition constructed (app : VisualizationApp.VisualizationApp) : Prop :=
  VisualizationApp.diffusionModel app = DiffusionModel.new
  /\ VisualizationApp.dt app = 0.02
  /\ VisualizationApp.positionRange app = (-2.0, 2.0)
  /\ VisualizationApp.tRange app = (0, 1)
  /\ VisualizationApp.maxDensity app
     = DiffusionModel.getMaxDensity DiffusionModel.new
  /\ VisualizationApp.horizontalPadding app = 0.05
  /\ VisualizationApp.verticalPadding app = 0.1
  /\ Canvas.height (VisualizationApp.canvas app) = 600.

(** The calls on the particle system that one [update(deltaTime)] of a
    running application makes: a spawn of one particle if [spawned], the
    advance by [step], a cleanup if [cleaned]. *)
Definition tickCalls (spawned cleaned : bool) (step stochasticity : R)
  : list Call :=
  (if spawned then [Spawn 1] else [])
  ++ [Advance step stochasticity]
  ++ (if cleaned then [Cleanup] else []).

(** Two application states that differ at most in the particle system
    and in [lastSpawnTime]. *)
Definition same_settings (a b : VisualizationApp.VisualizationApp) : Prop :=
  VisualizationApp.canvas a = VisualizationApp.canvas b
  /\ VisualizationApp.diffusionModel a = VisualizationApp.diffusionModel b
  /\ VisualizationApp.isPaused a = VisualizationApp.isPaused b
  /\ VisualizationApp.lastFrameTime a = VisualizationApp.lastFrameTime b
  /\ VisualizationApp.stochasticity a = VisualizationApp.stochasticity b
  /\ VisualizationApp.particlesPerSecond a
     = VisualizationApp.particlesPerSecond b
  /\ VisualizationApp.dt a = VisualizationApp.dt b
  /\ VisualizationApp.showTrails a = VisualizationApp.showTrails b
  /\ VisualizationApp.positionRange a = VisualizationApp.positionRange b
  /\ VisualizationApp.tRange a = VisualizationApp.tRange b
  /\ VisualizationApp.maxDensity a = VisualizationApp.maxDensity b
  /\ VisualizationApp.horizontalPadding a
     = VisualizationApp.horizontalPadding b
  /\ VisualizationApp.verticalPadding a = VisualizationApp.verticalPadding b.

(** The readings of [performance.now()] that [animate()] takes in the
    events of a session, in order. *)
Fixpoint frameReadings (es : list Event) : list R :=
  match es with
  | [] => []
  | Frame now1 _ :: es' => now1 :: frameReadings es'
  | PauseClick now1 _ :: es' => now1 :: frameReadings es'
  | _ :: es' => frameReadings es'
  end.

(** The clock readings [l] never go back, starting from [last]. *)
Fixpoint ascending_from (last : R) (l : list R) : Prop :=
  match l with
  | [] => True
  | r :: l' => last <= r /\ ascending_from r l'
  end.

(** A particle whose clock and trail have only moved forward. *)
Definition forward (p : Particle.Particle) : Prop :=
  0 <= Particle.t p
  /\ (exists older, Particle.trajectory p = older ++ [currentPoint p])
  /\ nondecreasing (trajectoryTimes p).

(** The application after the events [es], started in a window of inner
    width [innerWidth] at clock readings [now1] and [now2]. *)
Definition sessionApp (innerWidth now1 now2 : R) (es : list Event)
    (g : JS.Rng) : VisualizationApp.VisualizationApp :=
  fst (session es (VisualizationApp.new innerWidth now1 now2) g).

(* ===================================================================== *)
(** ** Sample inputs *)
(* ===================================================================== *)

Module Sample.

(** A random source whose every draw is 1/2. *)
Definition halves : JS.Rng := fun _ => 0.5.

Definition grey : Color.Color :=
  {| Color.hue := 0; Color.saturation := 60; Color.lightness := 50 |}.

(** A particle one reference step (dt = 0.02) before the end of time. *)
Definition late : Particle.Particle :=
  {| Particle.x := 0.5;
     Particle.t := 0.98;
     Particle.trajectory :=
       [ {| TrajectoryPoint.x := 0.5; TrajectoryPoint.t := 0.98 |} ];
     Particle.active := true;
     Particle.color := grey |}.

(** A particle that has reached t = 1.0 in its latest advance. *)
Definition arrived : Particle.Particle :=
  {| Particle.x := 0.5;
     Particle.t := 1.0;
     Particle.trajectory :=
       [ {| TrajectoryPoint.x := 0.5; TrajectoryPoint.t := 1.0 |} ];
     Particle.active := true;
     Particle.color := grey |}.

(** A particle in mid-flight whose trajectory holds 100 points. *)
Definition longTrail : Particle.Particle :=
  {| Particle.x := 0.5;
     Particle.t := 0.5;
     Particle.trajectory :=
       repeat {| TrajectoryPoint.x := 0.5; TrajectoryPoint.t := 0.5 |} 100;
     Particle.active := true;
     Particle.color := grey |}.

(** The particle a spawn creates from the draws of [halves]. *)
Definition born : Particle.Particle :=
  let s := DiffusionModel.sampleNoisy DiffusionModel.new halves in
  fst (Particle.new (fst s) 0 (snd s)).

(** Spawn one particle, then advance twice by a whole time unit. *)
Definition spawnAdvanceTwice : list Call :=
  [Spawn 1; Advance 1 0; Advance 1 0].

(** The application as constructed in a window 1280 pixels wide, with
    both clock readings 0. *)
Definition app : VisualizationApp.VisualizationApp :=
  VisualizationApp.new 1280 0 0.

(** A population at capacity in which nothing has completed. *)
Definition fullRunning : ParticleSystem.ParticleSystem :=
  {| ParticleSystem.particles := repeat late 1000;
     ParticleSystem.maxParticles := 1000 |}.

(** A population at capacity whose second particle has completed. *)
Definition fullWithArrived : ParticleSystem.ParticleSystem :=
  {| ParticleSystem.particles := late :: arrived :: repeat late 998;
     ParticleSystem.maxParticles := 1000 |}.

End Sample.

(* ===================================================================== *)
(** ** Facts about the JavaScript primitives *)
(* ===================================================================== *)

Lemma geb_true (a b : R) : JS.geb a b = true <-> a >= b.
Proof.
  unfold JS.geb; destruct (Rge_dec a b); split; intros; try discriminate;
    auto; contradiction.
Qed.

Lemma geb_false (a b : R) : JS.geb a b = false <-> a < b.
Proof.
  unfold JS.geb; destruct (Rge_dec a b); split; intros; try discriminate;
    auto; lra.
Qed.

Lemma eqb_true (a b : R) : JS.eqb a b = true <-> a = b.
Proof.
  unfold JS.eqb; destruct (Req_dec_T a b); split; intros; try discriminate;
    auto; contradiction.
Qed.

Lemma eqb_false (a b : R) : JS.eqb a b = false <-> a <> b.
Proof.
  unfold JS.eqb; destruct (Req_dec_T a b); split; intros; try discriminate;
    auto; contradiction.
Qed.

Lemma Math_sign_zero : JS.Math_sign 0 = 0.
Proof.
  unfold JS.Math_sign.
  destruct (Rlt_dec 0 0) as [H | _]; [lra | reflexivity].
Qed.

Lemma Math_sign_standard (x : R) : JS.Math_sign x = Spec.sign x.
Proof.
  unfold JS.Math_sign, Spec.sign.
  destruct (total_order_T x 0) as [[Hlt | Heq] | Hgt];
    destruct (Rlt_dec 0 x); destruct (Rlt_dec x 0); lra.
Qed.


(* ===================================================================== *)
(** ** DiffusionModel: densities, velocity field, steps *)
(* ===================================================================== *)

Section DiffusionModelFacts.

Import DiffusionModel.
Variable this : DiffusionModel.

(** C2.  [getNoisyDistribution(x, t)] is the blend
    (1 - t) * noise(x) + t * clean(x) of the noise density
    [gaussian(x, noiseMean, noiseStd)] and the clean two-mode mixture
    [getCleanDistribution(x)]; at t = 0 it is the noise density and at
    t = 1 the clean density. *)
Theorem getNoisyDistribution_blend (x t : R) :
  getNoisyDistribution this x t =
    (1 - t) * gaussian x (noiseMean this) (noiseStd this)
    + t * (modeWeight this * gaussian x (cleanMode1 this) (cleanStd this)
           + (1 - modeWeight this)
             * gaussian x (cleanMode2 this) (cleanStd this))
  /\ getNoisyDistribution this x 0 =
       gaussian x (noiseMean this) (noiseStd this)
  /\ getNoisyDistribution this x 1 = getCleanDistribution this x.
Proof.
  unfold getNoisyDistribution, getCleanDistribution.
  repeat split; cbv zeta; ring.
Qed.

(** C3.  [computeVectorField(x, t)] is the analytic formula of the
    specification ([Spec.velocityField] at the two clean modes), the
    code's [Math.sign] is the standard sign function, and because
    sign(0) = 0 the velocity at x = 0 is the pull toward the weighted
    target alone, with no curvature contribution. *)
Theorem computeVectorField_formula (x t : R) :
  computeVectorField this x t =
    Spec.velocityField (cleanMode1 this) (cleanMode2 this) x t
  /\ JS.Math_sign x = Spec.sign x
  /\ sin (t * PI * 2) * 0.3 * (1 - t) * JS.Math_sign 0 * (1 - t) = 0
  /\ computeVectorField this 0 t =
       ((exp (- Rabs (0 - cleanMode1 this) * 2) * (1 + 0.3 * sin (t * PI))
           * cleanMode1 this
         + exp (- Rabs (0 - cleanMode2 this) * 2) * (1 + 0.3 * cos (t * PI))
           * cleanMode2 this)
        / (exp (- Rabs (0 - cleanMode1 this) * 2) * (1 + 0.3 * sin (t * PI))
           + exp (- Rabs (0 - cleanMode2 this) * 2)
             * (1 + 0.3 * cos (t * PI)))
        - 0) * (1.0 - t * 0.2).
Proof.
  split; [| split; [apply Math_sign_standard | split]].
  - unfold computeVectorField, Spec.velocityField, Spec.weight.
    cbv zeta.
    rewrite Math_sign_standard.
    replace (- Rabs (x - cleanMode1 this) * 2)
      with (-2 * Rabs (x - cleanMode1 this)) by ring.
    replace (- Rabs (x - cleanMode2 this) * 2)
      with (-2 * Rabs (x - cleanMode2 this)) by ring.
    replace (t * PI * 2) with (2 * PI * t) by ring.
    replace (t * PI) with (PI * t) by ring.
    replace (- t * 1.5) with (-1.5 * t) by lra.
    unfold Rdiv; lra.
  - rewrite Math_sign_zero; ring.
  - unfold computeVectorField; cbv zeta.
    rewrite Math_sign_zero.
    unfold Rdiv; lra.
Qed.

End DiffusionModelFacts.

Section StepFacts.

Import DiffusionModel.
Variable this : DiffusionModel.

Lemma sampleGaussian_run (mean std : R) (g : JS.Rng) :
  sampleGaussian mean std g =
    (mean + std * boxMuller (g 0%nat) (g 1%nat), fun n => g (S (S n))).
Proof. reflexivity. Qed.


Lemma evolveParticle_zero (x t dt : R) (g : JS.Rng) :
  evolveParticle this x t dt 0 g = (flowMatchingStep this x t dt, g).
Proof.
  unfold evolveParticle.
  destruct (JS.eqb 0 0) eqn:E; [reflexivity |].
  apply eqb_false in E; contradiction E; reflexivity.
Qed.

Lemma evolveParticle_nonzero (x t dt stochasticity : R) (g : JS.Rng) :
  stochasticity <> 0 ->
  evolveParticle this x t dt stochasticity g =
    ddpmStep this x t dt stochasticity g.
Proof.
  intros H; unfold evolveParticle.
  destruct (JS.eqb stochasticity 0) eqn:E; [| reflexivity].
  apply eqb_true in E; contradiction.
Qed.



(** C5.  [evolveParticle] returns [flowMatchingStep] exactly when
    stochasticity is 0 and runs [ddpmStep] otherwise; at stochasticity 0
    it reads no random draw, so two calls with the same x, t, dt return
    the same position whatever the random source holds. *)
Theorem evolveParticle_dispatch (x t dt stochasticity : R)
    (g g1 g2 : JS.Rng) :
  (stochasticity = 0 ->
     evolveParticle this x t dt stochasticity g =
       (flowMatchingStep this x t dt, g))
  /\ (stochasticity <> 0 ->
        evolveParticle this x t dt stochasticity g =
          ddpmStep this x t dt stochasticity g)
  /\ fst (evolveParticle this x t dt 0 g1) =
       fst (evolveParticle this x t dt 0 g2)
  /\ snd (evolveParticle this x t dt 0 g1) = g1.
Proof.
  split; [| split; [| split]].
  - intros ->; apply evolveParticle_zero.
  - apply evolveParticle_nonzero.
  - rewrite !evolveParticle_zero; reflexivity.
  - rewrite evolveParticle_zero; reflexivity.
Qed.

End StepFacts.


(** The dispatch of C5 at stochasticity 0 and at stochasticity 0.5. *)
Lemma evolveParticle_dispatch_witness :
  (0 = 0 /\
   DiffusionModel.evolveParticle DiffusionModel.new 0.5 0.98 0.02 0
     Sample.halves =
   (DiffusionModel.flowMatchingStep DiffusionModel.new 0.5 0.98 0.02,
    Sample.halves))
  /\ (0.5 <> 0 /\
      DiffusionModel.evolveParticle DiffusionModel.new 0.5 0.98 0.02 0.5
        Sample.halves =
      DiffusionModel.ddpmStep DiffusionModel.new 0.5 0.98 0.02 0.5
        Sample.halves).
Proof.
  pose proof (evolveParticle_dispatch DiffusionModel.new 0.5 0.98 0.02 0
                Sample.halves Sample.halves Sample.halves) as H0.
  pose proof (evolveParticle_dispatch DiffusionModel.new 0.5 0.98 0.02 0.5
                Sample.halves Sample.halves Sample.halves) as H1.
  split; split.
  - reflexivity.
  - exact (proj1 H0 eq_refl).
  - lra.
  - apply (proj1 (proj2 H1)); lra.
Defined.

(* ===================================================================== *)
(** ** Particle.update *)
(* ===================================================================== *)

Section ParticleFacts.

Variable diffusionModel : DiffusionModel.DiffusionModel.

(** The guard of [update]: it fires on an inactive particle and on one
    whose time is at least 1.0. *)
Lemma update_stopped (p : Particle.Particle) (dt stochasticity : R)
    (g : JS.Rng) :
  Particle.active p = false \/ Particle.t p >= 1 ->
  Particle.update p diffusionModel dt stochasticity g =
    (Particle.deactivate p, g).
Proof.
  intros H; unfold Particle.update.
  assert (E : negb (Particle.active p) || JS.geb (Particle.t p) 1.0 = true).
  { destruct H as [H | H].
    - rewrite H; reflexivity.
    - apply orb_true_iff; right; apply geb_true; lra. }
  rewrite E; reflexivity.
Qed.

(** Past the guard, [update] moves the particle and records the point. *)
Lemma update_running (p : Particle.Particle) (dt stochasticity : R)
    (g : JS.Rng) :
  Particle.active p = true -> Particle.t p < 1 ->
  let e := DiffusionModel.evolveParticle diffusionModel
             (Particle.x p) (Particle.t p) dt stochasticity g in
  let newT := Rmin (Particle.t p + dt) 1.0 in
  let pushed :=
    Particle.trajectory p
    ++ [ {| TrajectoryPoint.x := fst e; TrajectoryPoint.t := newT |} ] in
  Particle.update p diffusionModel dt stochasticity g =
    ({| Particle.x := fst e;
        Particle.t := newT;
        Particle.trajectory :=
          if (100 <? length pushed)%nat then tl pushed else pushed;
        Particle.active := true;
        Particle.color := Particle.color p |},
     snd e).
Proof.
  intros Ha Ht e newT pushed; unfold Particle.update.
  assert (E : negb (Particle.active p) || JS.geb (Particle.t p) 1.0 = false).
  { rewrite Ha; simpl; apply geb_false; lra. }
  rewrite E, Ha; unfold JS.bind, JS.ret, JS.push, JS.shift.
  fold e; destruct e as [newX g']; reflexivity.
Qed.

Lemma forEach_update_length (ps : list Particle.Particle)
    (dt stochasticity : R) (g : JS.Rng) :
  length (fst (ParticleSystem.forEach_update ps diffusionModel dt
                 stochasticity g)) = length ps.
Proof.
  revert g; induction ps as [| p ps IH]; intros g; simpl; [reflexivity |].
  unfold JS.bind.
  destruct (Particle.update p diffusionModel dt stochasticity g) as [p' g1].
  specialize (IH g1).
  destruct (ParticleSystem.forEach_update ps diffusionModel dt stochasticity
              g1) as [ps' g2].
  simpl in *; congruence.
Qed.

(** [forEach] visits the particles in order: the particle at index [i] is
    updated with the random source the first [i] updates have left. *)
Lemma forEach_update_nth (ps : list Particle.Particle)
    (dt stochasticity : R) (g : JS.Rng) (i : nat) (p : Particle.Particle) :
  nth_error ps i = Some p ->
  nth_error (fst (ParticleSystem.forEach_update ps diffusionModel dt
                    stochasticity g)) i =
    Some (fst (Particle.update p diffusionModel dt stochasticity
                 (snd (ParticleSystem.forEach_update (firstn i ps)
                         diffusionModel dt stochasticity g)))).
Proof.
  revert g i; induction ps as [| q ps IH]; intros g i H.
  - destruct i; discriminate.
  - destruct i as [| i]; simpl in *.
    + injection H as ->. unfold JS.bind, JS.ret.
      destruct (Particle.update p diffusionModel dt stochasticity g)
        as [p' g1].
      destruct (ParticleSystem.forEach_update ps diffusionModel dt
                  stochasticity g1) as [ps' g2].
      reflexivity.
    + unfold JS.bind, JS.ret.
      destruct (Particle.update q diffusionModel dt stochasticity g)
        as [q' g1].
      specialize (IH g1 i H).
      destruct (ParticleSystem.forEach_update ps diffusionModel dt
                  stochasticity g1) as [ps' g2].
      destruct (ParticleSystem.forEach_update (firstn i ps) diffusionModel
                  dt stochasticity g1) as [ps1 g3].
      simpl in *; exact IH.
Qed.

Lemma forEach_update_Forall (P : Particle.Particle -> Prop)
    (ps : list Particle.Particle) (dt stochasticity : R) (g : JS.Rng) :
  (forall p g', P p ->
     P (fst (Particle.update p diffusionModel dt stochasticity g'))) ->
  Forall P ps ->
  Forall P (fst (ParticleSystem.forEach_update ps diffusionModel dt
                   stochasticity g)).
Proof.
  intros Hstep; revert g; induction ps as [| p ps IH]; intros g Hps; simpl.
  - constructor.
  - inversion Hps as [| ? ? Hp Hps']; subst.
    unfold JS.bind, JS.ret.
    pose proof (Hstep p g Hp) as Hp'.
    destruct (Particle.update p diffusionModel dt stochasticity g)
      as [p' g1].
    specialize (IH g1 Hps').
    destruct (ParticleSystem.forEach_update ps diffusionModel dt
                stochasticity g1) as [ps' g2].
    simpl in *; constructor; assumption.
Qed.

End ParticleFacts.

(* ===================================================================== *)
(** ** ParticleSystem.update on one particle of the population *)
(* ===================================================================== *)

Section AdvanceFacts.

Variable diffusionModel : DiffusionModel.DiffusionModel.

Lemma update_nth (sys : ParticleSystem.ParticleSystem)
    (dt stochasticity : R) (g : JS.Rng) (i : nat) (p : Particle.Particle) :
  nth_error (ParticleSystem.particles sys) i = Some p ->
  nth_error
    (ParticleSystem.particles
       (fst (ParticleSystem.update sys diffusionModel dt stochasticity g)))
    i =
  Some (fst (Particle.update p diffusionModel dt stochasticity
               (snd (ParticleSystem.forEach_update
                       (firstn i (ParticleSystem.particles sys))
                       diffusionModel dt stochasticity g)))).
Proof.
  intros H.
  pose proof (forEach_update_nth diffusionModel _ dt stochasticity g i p H)
    as Hn.
  unfold ParticleSystem.update, JS.bind, JS.ret.
  destruct (ParticleSystem.forEach_update (ParticleSystem.particles sys)
              diffusionModel dt stochasticity g) as [ps' g'].
  exact Hn.
Qed.

(** C1 (amended).  For every active particle of the population with
    t < 1.0, one advance call sets x' = evolveParticle(x, t, dt,
    stochasticity) and t' = min(t + dt, 1.0), pushes (x', t') on the
    trajectory and shifts the oldest point out if the length then exceeds
    100, keeps the colour, and leaves the particle active, also when t'
    is exactly 1.0.  The particle is marked inactive by the next update
    call on it, which changes nothing but the flag and reads no random
    draw. *)
Theorem advance_running_particle (sys : ParticleSystem.ParticleSystem)
    (dt stochasticity : R) (g : JS.Rng) (i : nat) (p : Particle.Particle)
    (Hp : nth_error (ParticleSystem.particles sys) i = Some p)
    (Hactive : Particle.active p = true)
    (Ht : Particle.t p < 1) :
  let gi := snd (ParticleSystem.forEach_update
                   (firstn i (ParticleSystem.particles sys))
                   diffusionModel dt stochasticity g) in
  let e := DiffusionModel.evolveParticle diffusionModel
             (Particle.x p) (Particle.t p) dt stochasticity gi in
  let newT := Rmin (Particle.t p + dt) 1.0 in
  let pushed :=
    Particle.trajectory p
    ++ [ {| TrajectoryPoint.x := fst e; TrajectoryPoint.t := newT |} ] in
  exists p',
    nth_error
      (ParticleSystem.particles
         (fst (ParticleSystem.update sys diffusionModel dt stochasticity g)))
      i = Some p'
    /\ Particle.x p' = fst e
    /\ Particle.t p' = newT
    /\ Particle.trajectory p' =
         (if (100 <? length pushed)%nat then tl pushed else pushed)
    /\ Particle.color p' = Particle.color p
    /\ Particle.active p' = true
    /\ (newT = 1 ->
        forall dt' stochasticity' g',
          Particle.update p' diffusionModel dt' stochasticity' g' =
            ({| Particle.x := Particle.x p';
                Particle.t := Particle.t p';
                Particle.trajectory := Particle.trajectory p';
                Particle.active := false;
                Particle.color := Particle.color p' |}, g')).
Proof.
  intros gi e newT pushed.
  pose proof (update_nth sys dt stochasticity g i p Hp) as Hn.
  fold gi in Hn.
  pose proof (update_running diffusionModel p dt stochasticity gi Hactive Ht)
    as Hrun.
  cbv zeta in Hrun; fold e newT pushed in Hrun.
  rewrite Hrun in Hn; simpl in Hn.
  eexists; split; [exact Hn |].
  simpl; repeat (split; [reflexivity |]).
  intros H1 dt' stochasticity' g'.
  rewrite update_stopped; [reflexivity |].
  right; simpl; lra.
Qed.

(** C8 (amended).  For a particle of the population that is already
    inactive or has t >= 1.0, an advance call keeps position, time,
    trajectory and colour, reads no random draw, and leaves the active
    flag false: an inactive particle is unchanged as a whole, an active
    one with t >= 1.0 becomes inactive. *)
Theorem advance_stopped_particle (sys : ParticleSystem.ParticleSystem)
    (dt stochasticity : R) (g : JS.Rng) (i : nat) (p : Particle.Particle)
    (Hp : nth_error (ParticleSystem.particles sys) i = Some p)
    (Hstopped : Particle.active p = false \/ Particle.t p >= 1) :
  forall g',
    Particle.update p diffusionModel dt stochasticity g' =
      (Particle.deactivate p, g')
    /\ nth_error
         (ParticleSystem.particles
            (fst (ParticleSystem.update sys diffusionModel dt stochasticity
                    g)))
         i = Some (Particle.deactivate p)
    /\ Particle.x (Particle.deactivate p) = Particle.x p
    /\ Particle.t (Particle.deactivate p) = Particle.t p
    /\ Particle.trajectory (Particle.deactivate p) = Particle.trajectory p
    /\ Particle.color (Particle.deactivate p) = Particle.color p
    /\ Particle.active (Particle.deactivate p) = false
    /\ (Particle.active p = false -> Particle.deactivate p = p).
Proof.
  intros g'.
  split; [apply update_stopped; exact Hstopped |].
  split.
  { rewrite (update_nth sys dt stochasticity g i p Hp).
    rewrite update_stopped by exact Hstopped; reflexivity. }
  repeat (split; [reflexivity |]).
  intros Ha; destruct p; simpl in *; subst; reflexivity.
Qed.

End AdvanceFacts.

(** C1 as stated fails: the sample particle at t = 0.98, advanced by the
    reference step 0.02, arrives at t' = 1.0 exactly and is still active
    when the advance call returns. *)
Lemma advance_keeps_arrived_active :
  let sys := {| ParticleSystem.particles := [Sample.late];
                ParticleSystem.maxParticles := 1000 |} in
  exists p',
    ParticleSystem.particles
      (fst (ParticleSystem.update sys DiffusionModel.new 0.02 0
              Sample.halves)) = [p']
    /\ Particle.t p' = 1
    /\ Particle.active p' <> false.
Proof.
  intros sys.
  unfold ParticleSystem.update, sys; simpl.
  unfold JS.bind, JS.ret.
  pose proof (update_running DiffusionModel.new Sample.late 0.02 0
                Sample.halves eq_refl) as Hrun.
  cbv zeta in Hrun; rewrite Hrun by (simpl; lra).
  simpl; eexists; split; [reflexivity |].
  simpl; split; [| discriminate].
  unfold Rmin; destruct (Rle_dec (0.98 + 0.02) 1.0); lra.
Qed.

(** The amended C1 on a population holding the sample particle at
    t = 0.98, advanced by 0.02 without noise. *)
Lemma advance_running_particle_witness :
  let sys := {| ParticleSystem.particles := [Sample.late];
                ParticleSystem.maxParticles := 1000 |} in
  nth_error (ParticleSystem.particles sys) 0 = Some Sample.late
  /\ Particle.active Sample.late = true
  /\ Particle.t Sample.late < 1
  /\ exists p',
       nth_error
         (ParticleSystem.particles
            (fst (ParticleSystem.update sys DiffusionModel.new 0.02 0
                    Sample.halves))) 0 = Some p'
       /\ Particle.t p' = Rmin (0.98 + 0.02) 1.0
       /\ Particle.active p' = true.
Proof.
  intros sys.
  assert (H0 : nth_error (ParticleSystem.particles sys) 0 = Some Sample.late)
    by reflexivity.
  assert (H1 : Particle.active Sample.late = true) by reflexivity.
  assert (H2 : Particle.t Sample.late < 1) by (simpl; lra).
  split; [exact H0 |]. split; [exact H1 |]. split; [exact H2 |].
  destruct (advance_running_particle DiffusionModel.new sys 0.02 0
              Sample.halves 0 Sample.late H0 H1 H2)
    as [p' [Hn [_ [Hpt [_ [_ [Hpa _]]]]]]].
  exists p'; split; [exact Hn |]; split; [exact Hpt | exact Hpa].
Defined.

(** C8 as stated fails: the sample particle that is active at t = 1.0
    does not keep its active flag across an advance call. *)
Lemma advance_changes_arrived_flag :
  Particle.t Sample.arrived >= 1.0
  /\ Particle.active
       (fst (Particle.update Sample.arrived DiffusionModel.new 0.02 0
               Sample.halves))
     <> Particle.active Sample.arrived.
Proof.
  split; [simpl; lra |].
  rewrite update_stopped by (right; simpl; lra).
  simpl; discriminate.
Qed.

(** The amended C8 on a population holding the sample particle that is
    active at t = 1.0. *)
Lemma advance_stopped_particle_witness :
  let sys := {| ParticleSystem.particles := [Sample.arrived];
                ParticleSystem.maxParticles := 1000 |} in
  nth_error (ParticleSystem.particles sys) 0 = Some Sample.arrived
  /\ (Particle.active Sample.arrived = false
      \/ Particle.t Sample.arrived >= 1)
  /\ Particle.update Sample.arrived DiffusionModel.new 0.02 0 Sample.halves
     = (Particle.deactivate Sample.arrived, Sample.halves).
Proof.
  intros sys.
  assert (H0 : nth_error (ParticleSystem.particles sys) 0
               = Some Sample.arrived) by reflexivity.
  assert (H1 : Particle.active Sample.arrived = false
               \/ Particle.t Sample.arrived >= 1) by (right; simpl; lra).
  split; [exact H0 |]. split; [exact H1 |].
  exact (proj1 (advance_stopped_particle DiffusionModel.new sys 0.02 0
                  Sample.halves 0 Sample.arrived H0 H1 Sample.halves)).
Defined.

(* ===================================================================== *)
(** ** Array primitives: findIndex and splice *)
(* ===================================================================== *)

Section ArrayFacts.

Context {A : Type}.
Variable f : A -> bool.

Lemma findIndex_Some (xs : list A) (i : nat) :
  JS.findIndex f xs = Some i ->
  (i < length xs)%nat
  /\ (exists a, nth_error xs i = Some a /\ f a = true)
  /\ (forall j b, (j < i)%nat -> nth_error xs j = Some b -> f b = false).
Proof.
  revert i; induction xs as [| a xs IH]; intros i H; simpl in H.
  - discriminate.
  - destruct (f a) eqn:Fa.
    + injection H as <-. simpl. split; [lia |]. split.
      * exists a; split; [reflexivity | exact Fa].
      * intros j b Hj; lia.
    + destruct (JS.findIndex f xs) as [k |] eqn:Fk; [| discriminate].
      injection H as <-.
      destruct (IH k eq_refl) as [Hlt [Hex Hbefore]].
      simpl. split; [lia |]. split; [exact Hex |].
      intros [| j] b Hj Hb; simpl in Hb.
      * injection Hb as <-; exact Fa.
      * apply (Hbefore j b); [lia | exact Hb].
Qed.

Lemma findIndex_None (xs : list A) :
  JS.findIndex f xs = None <-> (forall a, In a xs -> f a = false).
Proof.
  induction xs as [| a xs IH]; simpl.
  - split; [intros _ b [] | reflexivity].
  - destruct (f a) eqn:Fa.
    + split; [discriminate |].
      intros H; rewrite (H a (or_introl eq_refl)) in Fa; discriminate.
    + destruct (JS.findIndex f xs) as [k |].
      * split; [discriminate |].
        intros H.
        assert (E : Some k = None); [| discriminate E].
        apply IH; intros b Hb; apply H; right; exact Hb.
      * split; [| reflexivity].
        intros _ b [<- | Hb]; [exact Fa |].
        apply (proj1 IH eq_refl b Hb).
Qed.

Lemma findIndex_found (xs : list A) :
  (exists a, In a xs /\ f a = true) ->
  exists i, JS.findIndex f xs = Some i.
Proof.
  intros [a [Ha Fa]].
  destruct (JS.findIndex f xs) as [i |] eqn:E; [exists i; reflexivity |].
  rewrite (proj1 (findIndex_None xs) E a Ha) in Fa; discriminate.
Qed.

Lemma splice1_length (xs : list A) (i : nat) :
  (i < length xs)%nat -> S (length (JS.splice1 i xs)) = length xs.
Proof.
  revert i; induction xs as [| a xs IH]; intros i H; simpl in *.
  - lia.
  - destruct i as [| i]; [reflexivity |].
    simpl; rewrite IH by lia; reflexivity.
Qed.

Lemma splice1_Forall (P : A -> Prop) (xs : list A) (i : nat) :
  Forall P xs -> Forall P (JS.splice1 i xs).
Proof.
  revert i; induction xs as [| a xs IH]; intros i H; simpl.
  - destruct i; constructor.
  - inversion H; subst.
    destruct i as [| i]; [assumption |].
    constructor; auto.
Qed.

End ArrayFacts.

(* ===================================================================== *)
(** ** ParticleSystem: what every call preserves *)
(* ===================================================================== *)

Section PopulationFacts.

Variable diffusionModel : DiffusionModel.DiffusionModel.

(** The particle [spawnOne] pushes when the random source is [g]. *)
Lemma spawnOne_run (sys : ParticleSystem.ParticleSystem) (g : JS.Rng) :
  let s := DiffusionModel.sampleNoisy diffusionModel g in
  let n := Particle.new (fst s) 0 (snd s) in
  ParticleSystem.spawnOne sys diffusionModel g =
    ({| ParticleSystem.particles :=
          ParticleSystem.particles sys ++ [fst n];
        ParticleSystem.maxParticles := ParticleSystem.maxParticles sys |},
     snd n).
Proof. reflexivity. Qed.

Lemma new_run (x0 t0 : R) (g : JS.Rng) :
  fst (Particle.new x0 t0 g) =
    {| Particle.x := x0;
       Particle.t := t0;
       Particle.trajectory :=
         [ {| TrajectoryPoint.x := x0; TrajectoryPoint.t := t0 |} ];
       Particle.active := true;
       Particle.color := fst (Particle.generateColor g) |}.
Proof. reflexivity. Qed.

Section Preservation.

Variable P : Particle.Particle -> Prop.
Hypothesis HP : particle_invariant diffusionModel P.

Lemma good_new : good P ParticleSystem.new.
Proof.
  unfold good, within_capacity; simpl.
  split; [reflexivity |]; split; [lia | constructor].
Qed.

Lemma good_spawnOne (sys : ParticleSystem.ParticleSystem) (g : JS.Rng) :
  ParticleSystem.maxParticles sys = 1000%nat ->
  (length (ParticleSystem.particles sys)
   < ParticleSystem.maxParticles sys)%nat ->
  Forall P (ParticleSystem.particles sys) ->
  good P (fst (ParticleSystem.spawnOne sys diffusionModel g)).
Proof.
  intros Hmax Hlen Hall.
  rewrite spawnOne_run; unfold good, within_capacity.
  cbn [fst ParticleSystem.particles ParticleSystem.maxParticles].
  split; [exact Hmax |]; split.
  - rewrite length_app; cbn [length]; lia.
  - apply Forall_app; split; [exact Hall |].
    constructor; [apply (proj1 HP) | constructor].
Qed.

Lemma good_spawnParticles (count : nat)
    (sys : ParticleSystem.ParticleSystem) (g : JS.Rng) :
  good P sys ->
  good P (fst (ParticleSystem.spawnParticles count diffusionModel sys g)).
Proof.
  revert sys g; induction count as [| count IH]; intros sys g Hgood.
  - exact Hgood.
  - destruct Hgood as [Hmax [Hcap Hall]]; unfold within_capacity in Hcap.
    cbn [ParticleSystem.spawnParticles].
    destruct (Nat.leb_spec (ParticleSystem.maxParticles sys)
                (length (ParticleSystem.particles sys))) as [Hfull | Hroom].
    + destruct (JS.findIndex Particle.isComplete
                  (ParticleSystem.particles sys)) as [i |] eqn:Hfind.
      * destruct (findIndex_Some _ _ _ Hfind) as [Hi _].
        pose proof (splice1_length _ _ Hi) as Hlen.
        unfold JS.bind.
        pose proof (good_spawnOne
          {| ParticleSystem.particles :=
               JS.splice1 i (ParticleSystem.particles sys);
             ParticleSystem.maxParticles :=
               ParticleSystem.maxParticles sys |} g) as Hone.
        cbn [ParticleSystem.particles ParticleSystem.maxParticles] in Hone.
        destruct (ParticleSystem.spawnOne _ diffusionModel g) as [sys' g'].
        apply IH; apply Hone;
          [exact Hmax | lia | apply splice1_Forall; exact Hall].
      * unfold good, within_capacity; simpl; auto.
    + unfold JS.bind.
      pose proof (good_spawnOne sys g Hmax Hroom Hall) as Hone.
      destruct (ParticleSystem.spawnOne sys diffusionModel g) as [sys' g'].
      apply IH; exact Hone.
Qed.

Lemma good_update (sys : ParticleSystem.ParticleSystem)
    (dt stochasticity : R) (g : JS.Rng) :
  good P sys ->
  good P (fst (ParticleSystem.update sys diffusionModel dt stochasticity g)).
Proof.
  intros [Hmax [Hcap Hall]]; unfold within_capacity in Hcap.
  pose proof (forEach_update_length diffusionModel
                (ParticleSystem.particles sys) dt stochasticity g) as Hlen.
  pose proof (forEach_update_Forall diffusionModel P
                (ParticleSystem.particles sys) dt stochasticity g
                (fun p g' => proj2 HP p dt stochasticity g') Hall) as Hall'.
  unfold ParticleSystem.update, JS.bind, JS.ret.
  destruct (ParticleSystem.forEach_update _ diffusionModel dt stochasticity
              g) as [ps' g'].
  unfold good, within_capacity; simpl in *.
  split; [exact Hmax |]; split; [lia | exact Hall'].
Qed.

Lemma good_clear (sys : ParticleSystem.ParticleSystem) :
  good P sys -> good P (ParticleSystem.clear sys).
Proof.
  intros [Hmax _]; unfold good, within_capacity; simpl.
  split; [exact Hmax |]; split; [lia | constructor].
Qed.

Lemma good_cleanup (sys : ParticleSystem.ParticleSystem) :
  good P sys -> good P (ParticleSystem.cleanup sys).
Proof.
  intros [Hmax [Hcap Hall]]; unfold good, within_capacity in *; simpl.
  split; [exact Hmax |]; split.
  - eapply Nat.le_trans; [apply filter_length_le | exact Hcap].
  - rewrite Forall_forall in *; intros p Hp.
    apply filter_In in Hp; apply Hall; tauto.
Qed.

Lemma good_run (cs : list Call) (sys : ParticleSystem.ParticleSystem)
    (g : JS.Rng) :
  good P sys -> good P (fst (run diffusionModel cs sys g)).
Proof.
  revert sys g; induction cs as [| c cs IH]; intros sys g Hgood.
  - exact Hgood.
  - simpl; unfold JS.bind.
    assert (Hc : good P (fst (call diffusionModel c sys g))).
    { destruct c; simpl.
      - apply good_spawnParticles; exact Hgood.
      - apply good_update; exact Hgood.
      - apply good_clear; exact Hgood.
      - apply good_cleanup; exact Hgood. }
    destruct (call diffusionModel c sys g) as [sys' g'].
    apply IH; exact Hc.
Qed.

(** Every particle of a population a driver can hold satisfies [P]. *)
Lemma population_invariant (cs : list Call) (g : JS.Rng)
    (p : Particle.Particle) :
  In p (population diffusionModel cs g) -> P p.
Proof.
  intros Hin.
  destruct (good_run cs ParticleSystem.new g good_new) as [_ [_ Hall]].
  rewrite Forall_forall in Hall; apply Hall; exact Hin.
Qed.

Lemma population_capacity (cs : list Call) (g : JS.Rng) :
  (length (population diffusionModel cs g) <= 1000)%nat.
Proof.
  destruct (good_run cs ParticleSystem.new g good_new) as [Hmax [Hcap _]].
  unfold within_capacity in Hcap; unfold population; lia.
Qed.

End Preservation.

End PopulationFacts.

(* ===================================================================== *)
(** ** Invariants of the particles a driver can hold *)
(* ===================================================================== *)

Section Invariants.

Variable diffusionModel : DiffusionModel.DiffusionModel.

(** An inactive particle has run out of time. *)
Lemma inactive_late_invariant :
  particle_invariant diffusionModel
    (fun p => Particle.active p = false -> Particle.t p >= 1).
Proof.
  split.
  - intros x0 g; rewrite new_run; simpl; discriminate.
  - intros p dt stochasticity g IH.
    destruct (Particle.active p) eqn:Ha.
    + destruct (Rge_dec (Particle.t p) 1) as [Hge | Hlt].
      * rewrite update_stopped by (right; exact Hge).
        simpl; intros _; exact Hge.
      * rewrite update_running by (auto; lra).
        simpl; discriminate.
    + rewrite update_stopped by (left; exact Ha).
      simpl; intros _; apply IH; reflexivity.
Qed.

(** A trajectory holds between 1 and 100 points. *)
Lemma trajectory_length_invariant :
  particle_invariant diffusionModel
    (fun p => (1 <= length (Particle.trajectory p) <= 100)%nat).
Proof.
  split.
  - intros x0 g; rewrite new_run; simpl; lia.
  - intros p dt stochasticity g IH.
    destruct (Particle.active p) eqn:Ha.
    + destruct (Rge_dec (Particle.t p) 1) as [Hge | Hlt].
      * rewrite update_stopped by (right; exact Hge); simpl; exact IH.
      * rewrite update_running by (auto; lra).
        cbn [fst Particle.trajectory].
        set (pt := {| TrajectoryPoint.x := _; TrajectoryPoint.t := _ |}).
        destruct (Nat.ltb_spec 100 (length (Particle.trajectory p ++ [pt])))
          as [Hover | Hfits];
          rewrite length_app in Hover || rewrite length_app in Hfits.
        -- destruct (Particle.trajectory p) as [| q qs]; simpl in *;
             [lia |].
           rewrite length_app; simpl; lia.
        -- rewrite length_app; simpl in *; lia.
    + rewrite update_stopped by (left; exact Ha); simpl; exact IH.
Qed.

Lemma trivial_invariant :
  particle_invariant diffusionModel (fun _ => True).
Proof. split; intros; exact I. Qed.

(** C10.  For every particle of a population reached from a fresh system
    by spawn, advance, clear and cleanup calls (with any dt), the active
    flag being false implies t >= 1.0; so [isComplete], the test spawn
    evicts by, agrees there with "inactive or t >= 1.0". *)
Theorem inactive_implies_complete (cs : list Call) (g : JS.Rng)
    (p : Particle.Particle)
    (Hp : In p (population diffusionModel cs g)) :
  (Particle.active p = false -> Particle.t p >= 1.0)
  /\ Particle.isComplete p =
       (negb (Particle.active p) || JS.geb (Particle.t p) 1.0).
Proof.
  pose proof (population_invariant diffusionModel _ inactive_late_invariant
                cs g p Hp) as H.
  cbv beta in H.
  split.
  - intros Ha; specialize (H Ha); lra.
  - unfold Particle.isComplete.
    destruct (Particle.active p) eqn:Ha; simpl; [reflexivity |].
    apply geb_true; specialize (H eq_refl); lra.
Qed.

(** C7.  After any sequence of spawn and advance calls (and of clear and
    cleanup calls) on a fresh system no trajectory is longer than 100
    points, and none is empty; an advance of a running particle whose
    trajectory already holds 100 points drops the oldest point from the
    front and appends the new one, and below 100 points it only appends. *)
Theorem trajectory_bounded :
  (forall cs g p,
     In p (population diffusionModel cs g) ->
     (1 <= length (Particle.trajectory p) <= 100)%nat)
  /\ (forall p dt stochasticity g,
        Particle.active p = true -> Particle.t p < 1 ->
        let e := DiffusionModel.evolveParticle diffusionModel
                   (Particle.x p) (Particle.t p) dt stochasticity g in
        let point := {| TrajectoryPoint.x := fst e;
                        TrajectoryPoint.t := Rmin (Particle.t p + dt) 1.0 |} in
        let p' := fst (Particle.update p diffusionModel dt stochasticity g) in
        (length (Particle.trajectory p) = 100%nat ->
         Particle.trajectory p' = tl (Particle.trajectory p) ++ [point]
         /\ length (Particle.trajectory p') = 100%nat)
        /\ ((length (Particle.trajectory p) < 100)%nat ->
            Particle.trajectory p' = Particle.trajectory p ++ [point])).
Proof.
  split.
  - intros cs g p Hp.
    exact (population_invariant diffusionModel _ trajectory_length_invariant
             cs g p Hp).
  - intros p dt stochasticity g Ha Ht e point p'.
    unfold p'; rewrite update_running by assumption.
    cbn [fst Particle.trajectory]; fold e; fold point.
    rewrite length_app; cbn [length].
    split; intros Hlen.
    + replace (100 <? length (Particle.trajectory p) + 1)%nat with true
        by (symmetry; apply Nat.ltb_lt; lia).
      destruct (Particle.trajectory p) as [| q qs]; [discriminate |].
      simpl in *; split; [reflexivity |].
      rewrite length_app; simpl; lia.
    + replace (100 <? length (Particle.trajectory p) + 1)%nat with false
        by (symmetry; apply Nat.ltb_ge; lia).
      reflexivity.
Qed.

Lemma spawnParticles_full_none (count : nat)
    (sys : ParticleSystem.ParticleSystem) (g : JS.Rng) :
  (ParticleSystem.maxParticles sys
   <= length (ParticleSystem.particles sys))%nat ->
  (forall p, In p (ParticleSystem.particles sys) ->
             Particle.isComplete p = false) ->
  ParticleSystem.spawnParticles count diffusionModel sys g = (sys, g).
Proof.
  intros Hfull Hnone.
  destruct count as [| count]; [reflexivity |].
  cbn [ParticleSystem.spawnParticles].
  apply Nat.leb_le in Hfull; rewrite Hfull.
  apply findIndex_None in Hnone; rewrite Hnone; reflexivity.
Qed.

Lemma spawnParticles_room (count : nat)
    (sys : ParticleSystem.ParticleSystem) (g : JS.Rng) :
  (length (ParticleSystem.particles sys)
   < ParticleSystem.maxParticles sys)%nat ->
  ParticleSystem.spawnParticles (S count) diffusionModel sys g =
    ParticleSystem.spawnParticles count diffusionModel
      (fst (ParticleSystem.spawnOne sys diffusionModel g))
      (snd (ParticleSystem.spawnOne sys diffusionModel g)).
Proof.
  intros Hroom.
  cbn [ParticleSystem.spawnParticles].
  apply Nat.leb_gt in Hroom; rewrite Hroom.
  unfold JS.bind.
  destruct (ParticleSystem.spawnOne sys diffusionModel g); reflexivity.
Qed.

Lemma fresh_not_complete (x0 : R) (g : JS.Rng) :
  Particle.isComplete (fst (Particle.new x0 0 g)) = false.
Proof.
  rewrite new_run; unfold Particle.isComplete.
  apply geb_false; simpl; lra.
Qed.

(** With nothing completed, spawn fills up to the capacity and stops. *)
Lemma spawnParticles_fills (count : nat)
    (sys : ParticleSystem.ParticleSystem) (g : JS.Rng) :
  within_capacity sys ->
  (forall p, In p (ParticleSystem.particles sys) ->
             Particle.isComplete p = false) ->
  length (ParticleSystem.particles
            (fst (ParticleSystem.spawnParticles count diffusionModel sys g)))
  = Nat.min (length (ParticleSystem.particles sys) + count)
            (ParticleSystem.maxParticles sys).
Proof.
  unfold within_capacity.
  revert sys g; induction count as [| count IH]; intros sys g Hcap Hnone.
  - cbn [ParticleSystem.spawnParticles JS.ret fst]; lia.
  - destruct (Nat.le_gt_cases (ParticleSystem.maxParticles sys)
                (length (ParticleSystem.particles sys))) as [Hfull | Hroom].
    + rewrite spawnParticles_full_none by assumption.
      cbn [fst]; lia.
    + rewrite spawnParticles_room by assumption.
      rewrite spawnOne_run; cbv zeta; cbn [fst snd].
      rewrite IH; cbn [ParticleSystem.particles ParticleSystem.maxParticles].
      * rewrite length_app; cbn [length]; lia.
      * rewrite length_app; cbn [length]; lia.
      * intros p Hp; apply in_app_or in Hp; destruct Hp as [Hp | [<- | []]].
        -- apply Hnone; exact Hp.
        -- apply fresh_not_complete.
Qed.

(** C6.  After any sequence of spawn, advance, clear and cleanup calls on
    a fresh system the population holds at most 1000 particles.  A spawn
    at capacity removes the first completed particle, if there is one,
    before it adds a particle and goes on; if there is none it returns the
    system and the random source as they are, whatever count remains; and
    with nothing completed a spawn fills the population up to the capacity
    and no further. *)
Theorem population_never_exceeds_capacity :
  (forall cs g, (length (population diffusionModel cs g) <= 1000)%nat)
  /\ (forall sys count g,
        (ParticleSystem.maxParticles sys
         <= length (ParticleSystem.particles sys))%nat ->
        (exists p, In p (ParticleSystem.particles sys)
                   /\ Particle.isComplete p = true) ->
        exists i p,
          nth_error (ParticleSystem.particles sys) i = Some p
          /\ Particle.isComplete p = true
          /\ (forall j q, (j < i)%nat ->
                nth_error (ParticleSystem.particles sys) j = Some q ->
                Particle.isComplete q = false)
          /\ ParticleSystem.spawnParticles (S count) diffusionModel sys g =
             (let evicted :=
                {| ParticleSystem.particles :=
                     JS.splice1 i (ParticleSystem.particles sys);
                   ParticleSystem.maxParticles :=
                     ParticleSystem.maxParticles sys |} in
              let r := ParticleSystem.spawnOne evicted diffusionModel g in
              ParticleSystem.spawnParticles count diffusionModel
                (fst r) (snd r)))
  /\ (forall sys count g,
        (ParticleSystem.maxParticles sys
         <= length (ParticleSystem.particles sys))%nat ->
        (forall p, In p (ParticleSystem.particles sys) ->
                   Particle.isComplete p = false) ->
        ParticleSystem.spawnParticles count diffusionModel sys g = (sys, g))
  /\ (forall sys count g,
        within_capacity sys ->
        (forall p, In p (ParticleSystem.particles sys) ->
                   Particle.isComplete p = false) ->
        length (ParticleSystem.particles
                  (fst (ParticleSystem.spawnParticles count diffusionModel
                          sys g)))
        = Nat.min (length (ParticleSystem.particles sys) + count)
                  (ParticleSystem.maxParticles sys)).
Proof.
  split; [| split; [| split]].
  - intros cs g.
    exact (population_capacity diffusionModel _ trivial_invariant cs g).
  - intros sys count g Hfull Hex.
    destruct (findIndex_found Particle.isComplete _ Hex) as [i Hfind].
    destruct (findIndex_Some _ _ _ Hfind) as [_ [[p [Hnth Hp]] Hbefore]].
    exists i, p.
    split; [exact Hnth |]; split; [exact Hp |]; split; [exact Hbefore |].
    cbn [ParticleSystem.spawnParticles].
    apply Nat.leb_le in Hfull; rewrite Hfull, Hfind.
    unfold JS.bind; cbv zeta.
    destruct (ParticleSystem.spawnOne _ diffusionModel g); reflexivity.
  - intros sys count g; apply spawnParticles_full_none.
  - intros sys count g; apply spawnParticles_fills.
Qed.

End Invariants.


(* ===================================================================== *)
(** ** Concrete runs *)
(* ===================================================================== *)

Lemma run_cons (diffusionModel : DiffusionModel.DiffusionModel)
    (c : Call) (cs : list Call) (sys : ParticleSystem.ParticleSystem)
    (g : JS.Rng) :
  run diffusionModel (c :: cs) sys g =
    run diffusionModel cs (fst (call diffusionModel c sys g))
      (snd (call diffusionModel c sys g)).
Proof.
  cbn [run]; unfold JS.bind.
  destruct (call diffusionModel c sys g); reflexivity.
Qed.

Lemma update_singleton (diffusionModel : DiffusionModel.DiffusionModel)
    (p : Particle.Particle) (n : nat) (dt stochasticity : R) (g : JS.Rng) :
  ParticleSystem.update
    {| ParticleSystem.particles := [p]; ParticleSystem.maxParticles := n |}
    diffusionModel dt stochasticity g =
  ({| ParticleSystem.particles :=
        [fst (Particle.update p diffusionModel dt stochasticity g)];
      ParticleSystem.maxParticles := n |},
   snd (Particle.update p diffusionModel dt stochasticity g)).
Proof.
  unfold ParticleSystem.update.
  cbn [ParticleSystem.particles ParticleSystem.forEach_update
       ParticleSystem.maxParticles].
  unfold JS.bind, JS.ret.
  destruct (Particle.update p diffusionModel dt stochasticity g);
    reflexivity.
Qed.

Lemma spawn_one_fresh (g : JS.Rng) :
  fst (ParticleSystem.spawnParticles 1 DiffusionModel.new
         ParticleSystem.new g) =
  {| ParticleSystem.particles :=
       [fst (Particle.new
               (fst (DiffusionModel.sampleNoisy DiffusionModel.new g)) 0
               (snd (DiffusionModel.sampleNoisy DiffusionModel.new g)))];
     ParticleSystem.maxParticles := 1000 |}.
Proof.
  rewrite spawnParticles_room by (simpl; lia).
  rewrite spawnOne_run; reflexivity.
Qed.

(** After one spawn and two whole-unit advances the population is a
    single particle, inactive, at t = 1. *)
Lemma spawnAdvanceTwice_run :
  exists q,
    population DiffusionModel.new Sample.spawnAdvanceTwice Sample.halves
      = [q]
    /\ Particle.active q = false.
Proof.
  unfold population, Sample.spawnAdvanceTwice.
  rewrite !run_cons; cbn [run call JS.ret fst].
  rewrite spawn_one_fresh.
  fold Sample.born.
  rewrite update_singleton; cbn [fst snd].
  rewrite update_singleton; cbn [fst snd ParticleSystem.particles].
  eexists; split; [reflexivity |].
  set (g1 := snd (ParticleSystem.spawnParticles _ _ _ _)).
  assert (Hrun := update_running DiffusionModel.new Sample.born 1 0 g1
                    eq_refl).
  cbv zeta in Hrun; rewrite Hrun by (simpl; lra).
  cbn [fst snd].
  rewrite update_stopped; [reflexivity |].
  right; cbn [Particle.t].
  unfold Rmin; destruct (Rle_dec _ _); simpl in *; lra.
Qed.

(** C10 on the population left by one spawn and two whole-unit advances:
    its particle is inactive and, as the invariant says, at t >= 1. *)
Lemma inactive_implies_complete_witness :
  exists p,
    In p (population DiffusionModel.new Sample.spawnAdvanceTwice
            Sample.halves)
    /\ Particle.active p = false
    /\ Particle.t p >= 1.0.
Proof.
  destruct spawnAdvanceTwice_run as [q [Hpop Hq]].
  assert (Hin : In q (population DiffusionModel.new Sample.spawnAdvanceTwice
                        Sample.halves))
    by (rewrite Hpop; left; reflexivity).
  exists q; split; [exact Hin |]; split; [exact Hq |].
  exact (proj1 (inactive_implies_complete DiffusionModel.new
                  Sample.spawnAdvanceTwice Sample.halves q Hin) Hq).
Defined.

Lemma spawn_one_population :
  population DiffusionModel.new [Spawn 1] Sample.halves = [Sample.born].
Proof.
  unfold population.
  rewrite run_cons; cbn [run call JS.ret fst].
  rewrite spawn_one_fresh; reflexivity.
Qed.

(** C7 on the particle a first spawn creates, and on the sample particle
    whose trajectory holds 100 points. *)
Lemma trajectory_bounded_witness :
  (In Sample.born (population DiffusionModel.new [Spawn 1] Sample.halves)
   /\ (1 <= length (Particle.trajectory Sample.born) <= 100)%nat)
  /\ (Particle.active Sample.longTrail = true
      /\ Particle.t Sample.longTrail < 1
      /\ length (Particle.trajectory Sample.longTrail) = 100%nat
      /\ length (Particle.trajectory
                   (fst (Particle.update Sample.longTrail DiffusionModel.new
                           0.02 0 Sample.halves))) = 100%nat).
Proof.
  pose proof (trajectory_bounded DiffusionModel.new) as [Hall Hstep].
  assert (Hin : In Sample.born
                  (population DiffusionModel.new [Spawn 1] Sample.halves))
    by (rewrite spawn_one_population; left; reflexivity).
  assert (Ha : Particle.active Sample.longTrail = true) by reflexivity.
  assert (Ht : Particle.t Sample.longTrail < 1) by (simpl; lra).
  assert (Hlen : length (Particle.trajectory Sample.longTrail) = 100%nat)
    by reflexivity.
  split; [split; [exact Hin | exact (Hall _ _ _ Hin)] |].
  split; [exact Ha |]; split; [exact Ht |]; split; [exact Hlen |].
  exact (proj2 (proj1 (Hstep Sample.longTrail 0.02 0 Sample.halves Ha Ht)
                  Hlen)).
Defined.

Lemma late_not_complete : Particle.isComplete Sample.late = false.
Proof. apply geb_false; simpl; lra. Qed.

Lemma arrived_complete : Particle.isComplete Sample.arrived = true.
Proof. apply geb_true; simpl; lra. Qed.

(** C6 on two populations at capacity: one whose second particle has
    completed, where spawn evicts it, and one where nothing has
    completed, where spawn changes nothing. *)
Lemma population_never_exceeds_capacity_witness :
  ((ParticleSystem.maxParticles Sample.fullWithArrived
    <= length (ParticleSystem.particles Sample.fullWithArrived))%nat
   /\ (exists p, In p (ParticleSystem.particles Sample.fullWithArrived)
                 /\ Particle.isComplete p = true)
   /\ exists i p,
        nth_error (ParticleSystem.particles Sample.fullWithArrived) i
          = Some p
        /\ Particle.isComplete p = true)
  /\ ((ParticleSystem.maxParticles Sample.fullRunning
       <= length (ParticleSystem.particles Sample.fullRunning))%nat
      /\ (forall p, In p (ParticleSystem.particles Sample.fullRunning) ->
                    Particle.isComplete p = false)
      /\ ParticleSystem.spawnParticles 5 DiffusionModel.new
           Sample.fullRunning Sample.halves
         = (Sample.fullRunning, Sample.halves)).
Proof.
  pose proof (population_never_exceeds_capacity DiffusionModel.new)
    as [_ [Hevict [Hstop _]]].
  assert (Hfull1 : (ParticleSystem.maxParticles Sample.fullWithArrived
                    <= length (ParticleSystem.particles
                                 Sample.fullWithArrived))%nat).
  { cbn [Sample.fullWithArrived ParticleSystem.maxParticles
         ParticleSystem.particles length].
    rewrite repeat_length; apply Nat.le_refl. }
  assert (Hex : exists p,
             In p (ParticleSystem.particles Sample.fullWithArrived)
             /\ Particle.isComplete p = true).
  { exists Sample.arrived; split; [right; left; reflexivity |].
    exact arrived_complete. }
  assert (Hfull2 : (ParticleSystem.maxParticles Sample.fullRunning
                    <= length (ParticleSystem.particles
                                 Sample.fullRunning))%nat).
  { cbn [Sample.fullRunning ParticleSystem.maxParticles
         ParticleSystem.particles].
    rewrite repeat_length; apply Nat.le_refl. }
  assert (Hnone : forall p,
             In p (ParticleSystem.particles Sample.fullRunning) ->
             Particle.isComplete p = false).
  { intros p Hp; apply repeat_spec in Hp; subst p.
    exact late_not_complete. }
  split.
  - split; [exact Hfull1 |]; split; [exact Hex |].
    destruct (Hevict Sample.fullWithArrived 4%nat Sample.halves Hfull1 Hex)
      as [i [p [Hnth [Hp _]]]].
    exists i, p; split; [exact Hnth | exact Hp].
  - split; [exact Hfull2 |]; split; [exact Hnone |].
    exact (Hstop Sample.fullRunning 5%nat Sample.halves Hfull2 Hnone).
Defined.


(* ===================================================================== *)
(** ** The deterministic scenario: fifty steps of 0.02 from x = 0 *)
(* ===================================================================== *)

Section Scenario.

Import DiffusionModel.


Lemma exp_neg_bound (a : R) : 0 <= a -> 0 < exp (- a) <= 1.
Proof.
  intros Ha; split; [apply exp_pos |].
  destruct Ha as [Hlt | <-].
  - rewrite <- exp_0; left; apply exp_increasing; lra.
  - rewrite Ropp_0, exp_0; lra.
Qed.











(** The scenario step is what [Particle.update] does to (x, t). *)
Lemma update_is_evolveOnce (this : DiffusionModel) (p : Particle.Particle)
    (dt stochasticity : R) (g : JS.Rng) :
  Particle.active p = true -> Particle.t p < 1 ->
  let p' := fst (Particle.update p this dt stochasticity g) in
  (Particle.x p', Particle.t p') =
    fst (evolveOnce this dt stochasticity (Particle.x p, Particle.t p) g).
Proof.
  intros Ha Ht p'; unfold p'.
  rewrite update_running by assumption.
  unfold evolveOnce, JS.bind, JS.ret.
  destruct (evolveParticle this (Particle.x p) (Particle.t p) dt
              stochasticity g); reflexivity.
Qed.



End Scenario.

(* ===================================================================== *)
(** ** DiffusionModel: shape and size of the densities *)
(* ===================================================================== *)

Section DensityFacts.

Import DiffusionModel.

Lemma variance_positive (std : R) : std <> 0 -> 0 < 2 * PI * (std * std).
Proof.
  intros H.
  assert (0 < std * std) by nra.
  pose proof PI_RGT_0; nra.
Qed.

Lemma coefficient_positive (std : R) :
  std <> 0 -> 0 < 1.0 / sqrt (2 * PI * (std * std)).
Proof.
  intros H; apply Rdiv_lt_0_compat; [lra |].
  apply sqrt_lt_R0, variance_positive, H.
Qed.

Lemma inverse_antitone (a b : R) : 0 < a -> a <= b -> 1.0 / b <= 1.0 / a.
Proof.
  intros Ha Hab; unfold Rdiv.
  apply Rmult_le_compat_l; [lra |].
  apply Rinv_le_contravar; assumption.
Qed.

Lemma gaussian_at_mean (mean std : R) :
  gaussian mean mean std = 1.0 / sqrt (2 * PI * (std * std)).
Proof.
  unfold gaussian; cbv zeta.
  replace (-0.5 * ((mean - mean) / std) ^ 2) with 0.
  - rewrite exp_0; ring.
  - unfold Rdiv; replace (mean - mean) with 0 by ring.
    rewrite Rmult_0_l; simpl; ring.
Qed.

Lemma gaussian_range (x mean std : R) (Hstd : std <> 0) :
  0 < gaussian x mean std
  /\ gaussian x mean std <= gaussian mean mean std
  /\ gaussian mean mean std = 1 / sqrt (2 * PI * std ^ 2).
Proof.
  pose proof (coefficient_positive std Hstd) as Hc.
  assert (He : 0 < exp (-0.5 * ((x - mean) / std) ^ 2) <= 1).
  { replace (-0.5 * ((x - mean) / std) ^ 2)
      with (- (0.5 * ((x - mean) / std) ^ 2)) by lra.
    apply exp_neg_bound.
    assert (0 <= ((x - mean) / std) ^ 2) by (apply pow2_ge_0).
    lra. }
  rewrite gaussian_at_mean.
  unfold gaussian; cbv zeta.
  split; [| split].
  - apply Rmult_lt_0_compat; [exact Hc | apply He].
  - nra.
  - replace (std ^ 2) with (std * std) by ring.
    unfold Rdiv; lra.
Qed.


Lemma gaussian_mirror (x mean std : R) :
  gaussian (- x) (- mean) std = gaussian x mean std.
Proof.
  unfold gaussian; cbv zeta.
  replace ((- x - - mean) / std) with (- ((x - mean) / std))
    by (unfold Rdiv; ring).
  replace ((- ((x - mean) / std)) ^ 2) with (((x - mean) / std) ^ 2) by ring.
  reflexivity.
Qed.

(** X2.  The densities of the default model are even in the position:
    the clean mixture and the blend at any time take the same value at
    -x and at x. *)
Theorem default_densities_even (x t : R) :
  getCleanDistribution new (- x) = getCleanDistribution new x
  /\ getNoisyDistribution new (- x) t = getNoisyDistribution new x t.
Proof.
  assert (Hc : getCleanDistribution new (- x) = getCleanDistribution new x).
  { unfold getCleanDistribution; cbn [cleanMode1 cleanMode2 cleanStd
                                       modeWeight new].
    cbv zeta.
    replace (gaussian (- x) (-1.0) 0.3) with (gaussian x 1.0 0.3).
    - replace (gaussian (- x) 1.0 0.3) with (gaussian x (-1.0) 0.3).
      + lra.
      + rewrite <- (gaussian_mirror x (-1.0)); f_equal; lra.
    - rewrite <- (gaussian_mirror x 1.0); f_equal; lra. }
  split; [exact Hc |].
  unfold getNoisyDistribution; cbv zeta; rewrite Hc.
  cbn [noiseMean noiseStd new].
  replace (gaussian (- x) 0.0 0.7) with (gaussian x 0.0 0.7); [reflexivity |].
  rewrite <- (gaussian_mirror x 0.0); f_equal; lra.
Qed.

Variable this : DiffusionModel.
Hypothesis HnoiseStd : noiseStd this <> 0.
Hypothesis HcleanStd : cleanStd this <> 0.

Lemma getMaxDensity_covers :
  gaussian (noiseMean this) (noiseMean this) (noiseStd this)
    <= getMaxDensity this / 1.2
  /\ gaussian (cleanMode1 this) (cleanMode1 this) (cleanStd this)
       <= getMaxDensity this / 1.2
  /\ 0 < getMaxDensity this.
Proof.
  unfold getMaxDensity; cbv zeta.
  set (a := gaussian (noiseMean this) (noiseMean this) (noiseStd this)).
  set (b := gaussian (cleanMode1 this) (cleanMode1 this) (cleanStd this)).
  set (c := gaussian (cleanMode2 this) (cleanMode2 this) (cleanStd this)).
  assert (Ha : 0 < a)
    by (apply (gaussian_range _ _ _ HnoiseStd)).
  pose proof (Rmax_l (Rmax a b) c) as H1.
  pose proof (Rmax_l a b) as H2.
  pose proof (Rmax_r a b) as H3.
  split; [| split]; lra.
Qed.

Lemma noisy_range (x t : R)
    (Hweight : 0 <= modeWeight this <= 1) (Ht : 0 <= t <= 1) :
  0 < getNoisyDistribution this x t <= getMaxDensity this / 1.2
  /\ 0 < getNoisyDistribution this x t / getMaxDensity this <= 5 / 6.
Proof.
  destruct getMaxDensity_covers as [Hn [Hc Hpos]].
  destruct (gaussian_range x (noiseMean this) _ HnoiseStd) as [Hn0 [Hn1 _]].
  destruct (gaussian_range x (cleanMode1 this) _ HcleanStd)
    as [H10 [H11 _]].
  destruct (gaussian_range x (cleanMode2 this) _ HcleanStd)
    as [H20 [H21 E2]].
  assert (Epeak : gaussian (cleanMode2 this) (cleanMode2 this)
                    (cleanStd this)
                  = gaussian (cleanMode1 this) (cleanMode1 this)
                      (cleanStd this))
    by (rewrite !gaussian_at_mean; reflexivity).
  rewrite Epeak in H21.
  assert (Hbound : 0 < getNoisyDistribution this x t
                   <= getMaxDensity this / 1.2).
  { unfold getNoisyDistribution, getCleanDistribution; cbv zeta.
    set (n := gaussian x (noiseMean this) (noiseStd this)) in *.
    set (g1 := gaussian x (cleanMode1 this) (cleanStd this)) in *.
    set (g2 := gaussian x (cleanMode2 this) (cleanStd this)) in *.
    set (M := getMaxDensity this / 1.2) in *.
    set (w := modeWeight this) in *.
    assert (G1 : g1 <= M) by lra.
    assert (G2 : g2 <= M) by lra.
    assert (P1 : 0 <= w * (M - g1)) by (apply Rmult_le_pos; lra).
    assert (P2 : 0 <= (1 - w) * (M - g2)) by (apply Rmult_le_pos; lra).
    assert (Hclean : 0 < w * g1 + (1 - w) * g2 <= M).
    { split; [| lra].
      destruct (Rle_dec g1 g2).
      - assert (0 <= (1 - w) * (g2 - g1)) by (apply Rmult_le_pos; lra).
        lra.
      - assert (0 <= w * (g1 - g2)) by (apply Rmult_le_pos; lra).
        lra. }
    set (c := w * g1 + (1 - w) * g2) in *.
    assert (Q1 : 0 <= (1 - t) * (M - n)) by (apply Rmult_le_pos; lra).
    assert (Q2 : 0 <= t * (M - c)) by (apply Rmult_le_pos; lra).
    split; [| lra].
    destruct (Rle_dec n c).
    - assert (0 <= t * (c - n)) by (apply Rmult_le_pos; lra).
      lra.
    - assert (0 <= (1 - t) * (n - c)) by (apply Rmult_le_pos; lra).
      lra. }
  split; [exact Hbound |].
  set (d := getNoisyDistribution this x t) in *.
  set (m := getMaxDensity this) in *.
  assert (E : d / m * m = d) by (field; lra).
  split.
  - apply Rdiv_lt_0_compat; lra.
  - assert (Hq : 0 < d / m) by (apply Rdiv_lt_0_compat; lra).
    nra.
Qed.


(** X4.  [getMaxDensity()] is 1.2 times the peak of the narrower of the
    noise Gaussian and the clean Gaussians: with nonzero standard
    deviations it equals 1.2 / sqrt(2 pi min(noiseStd^2, cleanStd^2)). *)
Theorem getMaxDensity_value :
  getMaxDensity this =
    1.2 / sqrt (2 * PI * Rmin (noiseStd this ^ 2) (cleanStd this ^ 2)).
Proof.
  unfold getMaxDensity; cbv zeta.
  rewrite !gaussian_at_mean.
  pose proof (variance_positive _ HnoiseStd) as Vn.
  pose proof (variance_positive _ HcleanStd) as Vc.
  pose proof PI_RGT_0 as Hpi.
  replace (noiseStd this ^ 2) with (noiseStd this * noiseStd this) by ring.
  replace (cleanStd this ^ 2) with (cleanStd this * cleanStd this) by ring.
  set (vn := noiseStd this * noiseStd this) in *.
  set (vc := cleanStd this * cleanStd this) in *.
  assert (Sn : 0 < sqrt (2 * PI * vn)) by (apply sqrt_lt_R0; exact Vn).
  assert (Sc : 0 < sqrt (2 * PI * vc)) by (apply sqrt_lt_R0; exact Vc).
  rewrite (Rmax_left (Rmax _ _) (1.0 / sqrt (2 * PI * vc)))
    by apply Rmax_r.
  unfold Rmin; destruct (Rle_dec vn vc) as [Hle | Hgt].
  - assert (Hs : sqrt (2 * PI * vn) <= sqrt (2 * PI * vc))
      by (apply sqrt_le_1; nra).
    rewrite Rmax_left.
    + unfold Rdiv; lra.
    + apply inverse_antitone; assumption.
  - assert (Hs : sqrt (2 * PI * vc) <= sqrt (2 * PI * vn))
      by (apply sqrt_le_1; nra).
    rewrite Rmax_right.
    + unfold Rdiv; lra.
    + apply inverse_antitone; assumption.
Qed.

End DensityFacts.



(** X4 at the default model. *)
Lemma getMaxDensity_value_witness :
  DiffusionModel.noiseStd DiffusionModel.new <> 0
  /\ DiffusionModel.cleanStd DiffusionModel.new <> 0
  /\ DiffusionModel.getMaxDensity DiffusionModel.new =
       1.2 / sqrt (2 * PI
                   * Rmin (DiffusionModel.noiseStd DiffusionModel.new ^ 2)
                          (DiffusionModel.cleanStd DiffusionModel.new ^ 2)).
Proof.
  assert (H1 : DiffusionModel.noiseStd DiffusionModel.new <> 0)
    by (simpl; lra).
  assert (H2 : DiffusionModel.cleanStd DiffusionModel.new <> 0)
    by (simpl; lra).
  split; [exact H1 |]; split; [exact H2 |].
  exact (getMaxDensity_value DiffusionModel.new H1 H2).
Defined.

(* ===================================================================== *)
(** ** DiffusionModel: size of the velocity and of one step *)
(* ===================================================================== *)

Section FlowFacts.

Import DiffusionModel.





(** X7.  [sampleGaussian(mean, std)] reads exactly two draws, and when
    the first lies in (0, 1) the sample is within
    |std| * sqrt(-2 ln u1) of the mean. *)
Theorem sampleGaussian_deviation (mean std : R) (g : JS.Rng)
    (Hu1 : 0 < g 0%nat < 1) :
  Rabs (fst (sampleGaussian mean std g) - mean)
    <= Rabs std * sqrt (-2 * ln (g 0%nat))
  /\ 0 < sqrt (-2 * ln (g 0%nat))
  /\ snd (sampleGaussian mean std g) = (fun n => g (S (S n))).
Proof.
  rewrite sampleGaussian_run; cbn [fst snd].
  split; [| split; [| reflexivity]].
  - replace (mean + std * boxMuller (g 0%nat) (g 1%nat) - mean)
      with (std * boxMuller (g 0%nat) (g 1%nat)) by ring.
    unfold boxMuller.
    rewrite !Rabs_mult.
    rewrite (Rabs_pos_eq (sqrt _)) by apply sqrt_pos.
    pose proof (COS_bound (2 * PI * g 1%nat)) as Hc.
    assert (Habs : Rabs (cos (2 * PI * g 1%nat)) <= 1)
      by (apply Rabs_le; lra).
    pose proof (Rabs_pos std) as Hs.
    pose proof (sqrt_pos (-2 * ln (g 0%nat))) as Hq.
    pose proof (Rabs_pos (cos (2 * PI * g 1%nat))) as Hc0.
    assert (0 <= Rabs std * sqrt (-2 * ln (g 0%nat))) by nra.
    nra.
  - apply sqrt_lt_R0.
    assert (ln (g 0%nat) < 0).
    { rewrite <- ln_1; apply ln_increasing; lra. }
    lra.
Qed.

End FlowFacts.



(** X7 with every draw equal to 1/2. *)
Lemma sampleGaussian_deviation_witness :
  0 < Sample.halves 0%nat < 1
  /\ Rabs (fst (DiffusionModel.sampleGaussian 0 0.7 Sample.halves) - 0)
     <= Rabs 0.7 * sqrt (-2 * ln (Sample.halves 0%nat)).
Proof.
  assert (H : 0 < Sample.halves 0%nat < 1)
    by (unfold Sample.halves; lra).
  split; [exact H |].
  exact (proj1 (sampleGaussian_deviation 0 0.7 Sample.halves H)).
Defined.

(* ===================================================================== *)
(** ** Particle: colour, clock and trajectory *)
(* ===================================================================== *)

Section ParticleShape.

Variable diffusionModel : DiffusionModel.DiffusionModel.


Lemma update_cases (p : Particle.Particle) (dt stochasticity : R)
    (g : JS.Rng) :
  (running p = false
   /\ Particle.update p diffusionModel dt stochasticity g
      = (Particle.deactivate p, g))
  \/ (running p = true
      /\ Particle.active p = true /\ Particle.t p < 1
      /\ Particle.update p diffusionModel dt stochasticity g =
         (let e := DiffusionModel.evolveParticle diffusionModel
                     (Particle.x p) (Particle.t p) dt stochasticity g in
          let newT := Rmin (Particle.t p + dt) 1.0 in
          let pushed :=
            Particle.trajectory p
            ++ [ {| TrajectoryPoint.x := fst e;
                    TrajectoryPoint.t := newT |} ] in
          ({| Particle.x := fst e;
              Particle.t := newT;
              Particle.trajectory :=
                if (100 <? length pushed)%nat then tl pushed else pushed;
              Particle.active := true;
              Particle.color := Particle.color p |},
           snd e))).
Proof.
  unfold running.
  destruct (Particle.active p) eqn:Ha.
  - destruct (JS.geb (Particle.t p) 1.0) eqn:Hg.
    + left; split; [reflexivity |].
      apply update_stopped; right; apply geb_true in Hg; lra.
    + right; apply geb_false in Hg.
      split; [reflexivity |]; split; [reflexivity |]; split; [lra |].
      apply update_running; [exact Ha | lra].
  - left; split; [reflexivity |].
    apply update_stopped; left; exact Ha.
Qed.

Lemma clock_invariant :
  particle_invariant diffusionModel (fun p => Particle.t p <= 1).
Proof.
  split.
  - intros x0 g; rewrite new_run; simpl; lra.
  - intros p dt stochasticity g IH.
    destruct (update_cases p dt stochasticity g)
      as [[_ E] | [_ [_ [_ E]]]]; rewrite E.
    + exact IH.
    + cbv zeta; cbn [fst Particle.t].
      unfold Rmin; destruct (Rle_dec _ _); lra.
Qed.

Lemma tl_app_nonempty {A} (l : list A) (a : A) :
  l <> [] -> tl (l ++ [a]) = tl l ++ [a].
Proof. destruct l; [contradiction | reflexivity]. Qed.

Lemma current_is_last_invariant :
  particle_invariant diffusionModel
    (fun p => exists older, Particle.trajectory p = older ++ [currentPoint p]).
Proof.
  split.
  - intros x0 g; rewrite new_run; exists []; reflexivity.
  - intros p dt stochasticity g [older IH].
    destruct (update_cases p dt stochasticity g)
      as [[_ E] | [_ [_ [_ E]]]]; rewrite E.
    + exists older; exact IH.
    + cbv zeta; cbn [fst Particle.trajectory]; unfold currentPoint.
      cbn [Particle.x Particle.t].
      destruct (100 <? _)%nat.
      * rewrite tl_app_nonempty.
        -- eexists; reflexivity.
        -- rewrite IH; destruct older; discriminate.
      * eexists; reflexivity.
Qed.

(** X9.  The clock of a particle of any reachable population never
    passes 1: t <= 1, so [isComplete()] holds exactly when t = 1. *)
Theorem clock_stops_at_one (cs : list Call) (g : JS.Rng)
    (p : Particle.Particle)
    (Hp : In p (population diffusionModel cs g)) :
  Particle.t p <= 1
  /\ (Particle.isComplete p = true <-> Particle.t p = 1).
Proof.
  pose proof (population_invariant diffusionModel _ clock_invariant
                cs g p Hp) as H.
  cbv beta in H; split; [exact H |].
  unfold Particle.isComplete; rewrite geb_true.
  split; intros; lra.
Qed.

(** X10.  In any reachable population the last point of a particle's
    trajectory is the particle's present position and time. *)
Theorem trajectory_ends_at_particle (cs : list Call) (g : JS.Rng)
    (p : Particle.Particle)
    (Hp : In p (population diffusionModel cs g)) :
  exists older,
    Particle.trajectory p =
      older ++ [ {| TrajectoryPoint.x := Particle.x p;
                    TrajectoryPoint.t := Particle.t p |} ].
Proof.
  exact (population_invariant diffusionModel _ current_is_last_invariant
           cs g p Hp).
Qed.

End ParticleShape.


(** X9 on the particle a first spawn creates. *)
Lemma clock_stops_at_one_witness :
  In Sample.born (population DiffusionModel.new [Spawn 1] Sample.halves)
  /\ Particle.t Sample.born <= 1.
Proof.
  assert (Hin : In Sample.born
                  (population DiffusionModel.new [Spawn 1] Sample.halves))
    by (rewrite spawn_one_population; left; reflexivity).
  split; [exact Hin |].
  exact (proj1 (clock_stops_at_one DiffusionModel.new [Spawn 1]
                  Sample.halves Sample.born Hin)).
Defined.

(** X10 on the particle a first spawn creates. *)
Lemma trajectory_ends_at_particle_witness :
  In Sample.born (population DiffusionModel.new [Spawn 1] Sample.halves)
  /\ exists older,
       Particle.trajectory Sample.born =
         older ++ [ {| TrajectoryPoint.x := Particle.x Sample.born;
                       TrajectoryPoint.t := Particle.t Sample.born |} ].
Proof.
  assert (Hin : In Sample.born
                  (population DiffusionModel.new [Spawn 1] Sample.halves))
    by (rewrite spawn_one_population; left; reflexivity).
  split; [exact Hin |].
  exact (trajectory_ends_at_particle DiffusionModel.new [Spawn 1]
           Sample.halves Sample.born Hin).
Defined.

(* ===================================================================== *)
(** ** ParticleSystem: properties that depend on the time steps *)
(* ===================================================================== *)

Section SteppedPreservation.

Variable diffusionModel : DiffusionModel.DiffusionModel.
Variable P : Particle.Particle -> Prop.
Variable Q : R -> Prop.
Hypothesis Hnew : forall x0 g, P (fst (Particle.new x0 0 g)).
Hypothesis Hupdate :
  forall p dt stochasticity g,
    Q dt -> P p ->
    P (fst (Particle.update p diffusionModel dt stochasticity g)).

Lemma spawnParticles_Forall (count : nat)
    (sys : ParticleSystem.ParticleSystem) (g : JS.Rng) :
  Forall P (ParticleSystem.particles sys) ->
  Forall P (ParticleSystem.particles
              (fst (ParticleSystem.spawnParticles count diffusionModel
                      sys g))).
Proof.
  revert sys g; induction count as [| count IH]; intros sys g Hall.
  - exact Hall.
  - cbn [ParticleSystem.spawnParticles].
    assert (Hone : forall sys' g',
               Forall P (ParticleSystem.particles sys') ->
               Forall P (ParticleSystem.particles
                           (fst (ParticleSystem.spawnOne sys'
                                   diffusionModel g')))).
    { intros sys' g' H'; rewrite spawnOne_run; cbv zeta.
      cbn [fst ParticleSystem.particles].
      apply Forall_app; split; [exact H' |].
      constructor; [apply Hnew | constructor]. }
    destruct (ParticleSystem.maxParticles sys
              <=? length (ParticleSystem.particles sys))%nat.
    + destruct (JS.findIndex Particle.isComplete
                  (ParticleSystem.particles sys)) as [i |];
        [| exact Hall].
      unfold JS.bind.
      pose proof (Hone
        {| ParticleSystem.particles :=
             JS.splice1 i (ParticleSystem.particles sys);
           ParticleSystem.maxParticles :=
             ParticleSystem.maxParticles sys |} g
        (splice1_Forall P _ i Hall)) as H1.
      destruct (ParticleSystem.spawnOne _ diffusionModel g) as [sys' g'].
      apply IH; exact H1.
    + unfold JS.bind.
      pose proof (Hone sys g Hall) as H1.
      destruct (ParticleSystem.spawnOne sys diffusionModel g) as [sys' g'].
      apply IH; exact H1.
Qed.

Lemma run_Forall (cs : list Call) (sys : ParticleSystem.ParticleSystem)
    (g : JS.Rng) :
  steps_satisfy Q cs ->
  Forall P (ParticleSystem.particles sys) ->
  Forall P (ParticleSystem.particles (fst (run diffusionModel cs sys g))).
Proof.
  unfold steps_satisfy.
  revert sys g; induction cs as [| c cs IH]; intros sys g Hcs Hall.
  - exact Hall.
  - inversion Hcs as [| ? ? Hc Hcs']; subst.
    rewrite run_cons; apply IH; [exact Hcs' |].
    destruct c as [count | dt stochasticity | |]; cbn [call].
    + apply spawnParticles_Forall; exact Hall.
    + unfold ParticleSystem.update, JS.bind, JS.ret.
      pose proof (forEach_update_Forall diffusionModel P
                    (ParticleSystem.particles sys) dt stochasticity g
                    (fun p g' => Hupdate p dt stochasticity g' Hc) Hall)
        as H1.
      destruct (ParticleSystem.forEach_update _ diffusionModel dt
                  stochasticity g) as [ps' g'].
      exact H1.
    + constructor.
    + cbn [JS.ret fst ParticleSystem.cleanup ParticleSystem.particles].
      rewrite Forall_forall in *; intros p Hp.
      apply filter_In in Hp; apply Hall; tauto.
Qed.

End SteppedPreservation.

Section TimeFacts.

Variable diffusionModel : DiffusionModel.DiffusionModel.

Lemma map_tail {A B} (f : A -> B) (l : list A) :
  map f (tl l) = tl (map f l).
Proof. destruct l; reflexivity. Qed.

Lemma nondecreasing_tl (l : list R) : nondecreasing l -> nondecreasing (tl l).
Proof.
  destruct l as [| a [| b l]]; simpl; tauto.
Qed.

Lemma nondecreasing_snoc (l : list R) (a b : R) :
  nondecreasing (l ++ [a]) -> a <= b -> nondecreasing ((l ++ [a]) ++ [b]).
Proof.
  intros H Hab; induction l as [| c l IH].
  - simpl; auto.
  - destruct l as [| d l].
    + simpl in *; intuition.
    + change (nondecreasing (c :: (d :: l ++ [a]) ++ [b])).
      change (nondecreasing (c :: d :: l ++ [a])) in H.
      destruct H as [Hcd H].
      split; [exact Hcd | apply IH; exact H].
Qed.

(** With nonnegative steps a particle's clock and trail never go back. *)
Lemma forward_invariant (p : Particle.Particle) (dt stochasticity : R)
    (g : JS.Rng) :
  0 <= dt ->
  (0 <= Particle.t p
   /\ (exists older, Particle.trajectory p = older ++ [currentPoint p])
   /\ nondecreasing (trajectoryTimes p)) ->
  let p' := fst (Particle.update p diffusionModel dt stochasticity g) in
  0 <= Particle.t p'
  /\ (exists older, Particle.trajectory p' = older ++ [currentPoint p'])
  /\ nondecreasing (trajectoryTimes p').
Proof.
  intros Hdt [Ht [Hlast Hsorted]] p'.
  pose proof (proj2 (current_is_last_invariant diffusionModel) p dt
                stochasticity g Hlast) as Hlast'.
  fold p' in Hlast'.
  split; [| split; [exact Hlast' |]]; unfold p';
    destruct (update_cases diffusionModel p dt stochasticity g)
      as [[_ E] | [_ [_ [Hlt E]]]]; rewrite E; try assumption.
  - cbv zeta; cbn [fst Particle.t].
    unfold Rmin; destruct (Rle_dec _ _); lra.
  - cbv zeta; unfold trajectoryTimes in *; cbn [fst Particle.trajectory].
    destruct Hlast as [older Hlast].
    assert (Hpushed :
      nondecreasing
        (map TrajectoryPoint.t
           (Particle.trajectory p
            ++ [ {| TrajectoryPoint.x :=
                      fst (DiffusionModel.evolveParticle diffusionModel
                             (Particle.x p) (Particle.t p) dt stochasticity
                             g);
                    TrajectoryPoint.t := Rmin (Particle.t p + dt) 1.0 |} ]))).
    { rewrite Hlast in *; rewrite !map_app in *; cbn [map] in *.
      unfold currentPoint in *; cbn [TrajectoryPoint.t] in *.
      apply nondecreasing_snoc; [exact Hsorted |].
      unfold Rmin; destruct (Rle_dec _ _); lra. }
    destruct (100 <? _)%nat; [| exact Hpushed].
    rewrite map_tail; apply nondecreasing_tl; exact Hpushed.
Qed.

(** X11.  After any sequence of calls on a fresh system whose advances
    all have a step dt >= 0, every particle has a time in [0, 1] and the
    times recorded along its trajectory never decrease. *)
Theorem clock_never_goes_back (cs : list Call) (g : JS.Rng)
    (p : Particle.Particle)
    (Hsteps : steps_satisfy (fun dt => 0 <= dt) cs)
    (Hp : In p (population diffusionModel cs g)) :
  0 <= Particle.t p <= 1
  /\ nondecreasing (map TrajectoryPoint.t (Particle.trajectory p)).
Proof.
  pose proof (population_invariant diffusionModel _
                (clock_invariant diffusionModel) cs g p Hp) as Hle.
  cbv beta in Hle.
  assert (Hall := run_Forall diffusionModel
    (fun p => 0 <= Particle.t p
              /\ (exists older,
                    Particle.trajectory p = older ++ [currentPoint p])
              /\ nondecreasing (trajectoryTimes p))
    (fun dt => 0 <= dt)).
  specialize (Hall
    ltac:(intros x0 g0; rewrite new_run; cbn; split;
          [lra | split; [exists []; reflexivity | exact I]])
    ltac:(intros q dt s g0 Hdt Hq;
          exact (forward_invariant q dt s g0 Hdt Hq))
    cs ParticleSystem.new g Hsteps (Forall_nil _)).
  rewrite Forall_forall in Hall.
  destruct (Hall p Hp) as [H0 [_ Hs]].
  split; [lra | exact Hs].
Qed.






End TimeFacts.

(** X11 on the population left by one spawn and two whole-unit
    advances. *)
Lemma clock_never_goes_back_witness :
  steps_satisfy (fun dt => 0 <= dt) Sample.spawnAdvanceTwice
  /\ exists p,
       In p (population DiffusionModel.new Sample.spawnAdvanceTwice
               Sample.halves)
       /\ 0 <= Particle.t p <= 1.
Proof.
  assert (Hs : steps_satisfy (fun dt => 0 <= dt) Sample.spawnAdvanceTwice).
  { unfold steps_satisfy, Sample.spawnAdvanceTwice.
    repeat constructor; lra. }
  split; [exact Hs |].
  destruct spawnAdvanceTwice_run as [q [Hpop _]].
  assert (Hin : In q (population DiffusionModel.new Sample.spawnAdvanceTwice
                        Sample.halves))
    by (rewrite Hpop; left; reflexivity).
  exists q; split; [exact Hin |].
  exact (proj1 (clock_never_goes_back DiffusionModel.new
                  Sample.spawnAdvanceTwice Sample.halves q Hs Hin)).
Defined.


(* ===================================================================== *)
(** ** ParticleSystem: cleanup, spawn and the active view *)
(* ===================================================================== *)

Section SystemFacts.

Variable diffusionModel : DiffusionModel.DiffusionModel.

Lemma filter_all {A} (f : A -> bool) (l : list A) :
  Forall (fun a => f a = true) l -> filter f l = l.
Proof.
  induction 1 as [| a l Ha _ IH]; [reflexivity |].
  cbn [filter]; rewrite Ha, IH; reflexivity.
Qed.

(** X13.  On every population reachable from a fresh system [cleanup()]
    removes nothing: it returns the system unchanged, because no
    trajectory is ever empty. *)
Theorem cleanup_removes_nothing (cs : list Call) (g : JS.Rng) :
  let sys := fst (run diffusionModel cs ParticleSystem.new g) in
  ParticleSystem.cleanup sys = sys.
Proof.
  intros sys.
  destruct (good_run diffusionModel _
              (trajectory_length_invariant diffusionModel) cs
              ParticleSystem.new g (good_new _)) as [_ [_ Hall]].
  fold sys in Hall.
  unfold ParticleSystem.cleanup.
  rewrite filter_all.
  - destruct sys; reflexivity.
  - eapply Forall_impl; [| exact Hall].
    intros p Hp; cbv beta in *.
    apply orb_true_iff; right; apply Nat.ltb_lt; lia.
Qed.

(** The shape of a particle as [new Particle(x, 0)] leaves it. *)
Lemma fresh_shape (x0 : R) (g : JS.Rng) :
  let p := fst (Particle.new x0 0 g) in
  Particle.t p = 0 /\ Particle.active p = true
  /\ Particle.trajectory p = [currentPoint p].
Proof. rewrite new_run; cbn; auto. Qed.

(** X14.  A spawn of [count] particles into a system with room for all
    of them appends exactly [count] particles after the existing ones,
    each active, at t = 0, with a trajectory holding its single starting
    point; the capacity is unchanged and five draws are read per
    particle. *)
Theorem spawn_appends_fresh_particles (count : nat)
    (sys : ParticleSystem.ParticleSystem) (g : JS.Rng)
    (Hroom : (length (ParticleSystem.particles sys) + count
              <= ParticleSystem.maxParticles sys)%nat) :
  let r := ParticleSystem.spawnParticles count diffusionModel sys g in
  exists fresh,
    ParticleSystem.particles (fst r) = ParticleSystem.particles sys ++ fresh
    /\ length fresh = count
    /\ Forall (fun p => Particle.t p = 0 /\ Particle.active p = true
                        /\ Particle.trajectory p =
                             [ {| TrajectoryPoint.x := Particle.x p;
                                  TrajectoryPoint.t := Particle.t p |} ])
         fresh
    /\ ParticleSystem.maxParticles (fst r) = ParticleSystem.maxParticles sys
    /\ forall n, snd r n = g (5 * count + n)%nat.
Proof.
  revert sys g Hroom; fold currentPoint.
  induction count as [| count IH]; intros sys g Hroom r; unfold r.
  - exists []; cbn [ParticleSystem.spawnParticles JS.ret fst snd].
    rewrite app_nil_r; repeat split; constructor.
  - rewrite spawnParticles_room by lia.
    rewrite spawnOne_run; cbv zeta; cbn [fst snd].
    set (s := DiffusionModel.sampleNoisy diffusionModel g).
    set (n1 := Particle.new (fst s) 0 (snd s)).
    destruct (IH {| ParticleSystem.particles :=
                      ParticleSystem.particles sys ++ [fst n1];
                    ParticleSystem.maxParticles :=
                      ParticleSystem.maxParticles sys |} (snd n1))
      as [fresh [Hps [Hlen [Hshape [Hmax Hrng]]]]].
    { cbn [ParticleSystem.particles ParticleSystem.maxParticles].
      rewrite length_app; cbn [length]; lia. }
    cbn [ParticleSystem.particles ParticleSystem.maxParticles] in *.
    exists (fst n1 :: fresh).
    split; [rewrite Hps, <- app_assoc; reflexivity |].
    split; [cbn [length]; rewrite Hlen; reflexivity |].
    split; [constructor; [apply fresh_shape | exact Hshape] |].
    split; [exact Hmax |].
    intros n; rewrite Hrng.
    unfold n1, s; cbn.
    f_equal; lia.
Qed.

Lemma active_after_update (p : Particle.Particle) (dt stochasticity : R)
    (g : JS.Rng) :
  Particle.active
    (fst (Particle.update p diffusionModel dt stochasticity g)) = running p.
Proof.
  destruct (update_cases diffusionModel p dt stochasticity g)
    as [[Hr E] | [Hr [_ [_ E]]]]; rewrite E, Hr; reflexivity.
Qed.

Lemma forEach_update_active (ps : list Particle.Particle)
    (dt stochasticity : R) (g : JS.Rng) :
  map Particle.active
    (fst (ParticleSystem.forEach_update ps diffusionModel dt stochasticity
            g)) = map running ps.
Proof.
  revert g; induction ps as [| p ps IH]; intros g; [reflexivity |].
  cbn [ParticleSystem.forEach_update]; unfold JS.bind, JS.ret.
  pose proof (active_after_update p dt stochasticity g) as Hp.
  destruct (Particle.update p diffusionModel dt stochasticity g) as [p' g1].
  specialize (IH g1).
  destruct (ParticleSystem.forEach_update ps diffusionModel dt stochasticity
              g1) as [ps' g2].
  cbn [fst map] in *; rewrite Hp, IH; reflexivity.
Qed.

Lemma filter_length_map {A B} (f : A -> bool) (h : B -> bool)
    (l : list A) (l' : list B) :
  map f l = map h l' -> length (filter f l) = length (filter h l').
Proof.
  revert l'; induction l as [| a l IH]; intros [| b l'] H;
    try discriminate; [reflexivity |].
  cbn [map] in H; injection H as Hab Hl.
  cbn [filter]; rewrite Hab.
  destruct (h b); cbn [length]; rewrite (IH l' Hl); reflexivity.
Qed.

(** X15.  After an advance the active flag of each particle tells
    whether it was running before the call (active with t < 1.0): the
    flags after are the running tests before, position by position, so
    [getActiveParticles()] has as many particles as were running. *)
Theorem active_after_advance (sys : ParticleSystem.ParticleSystem)
    (dt stochasticity : R) (g : JS.Rng) :
  let sys' :=
    fst (ParticleSystem.update sys diffusionModel dt stochasticity g) in
  map Particle.active (ParticleSystem.particles sys')
    = map running (ParticleSystem.particles sys)
  /\ length (ParticleSystem.getActiveParticles sys')
     = length (filter running (ParticleSystem.particles sys)).
Proof.
  intros sys'.
  assert (H : map Particle.active (ParticleSystem.particles sys')
              = map running (ParticleSystem.particles sys)).
  { unfold sys', ParticleSystem.update, JS.bind, JS.ret.
    pose proof (forEach_update_active (ParticleSystem.particles sys) dt
                  stochasticity g) as H.
    destruct (ParticleSystem.forEach_update _ diffusionModel dt
                stochasticity g) as [ps' g'].
    exact H. }
  split; [exact H |].
  unfold ParticleSystem.getActiveParticles.
  apply filter_length_map; exact H.
Qed.

End SystemFacts.

(** X14 for five particles spawned into a fresh system. *)
Lemma spawn_appends_fresh_particles_witness :
  (length (ParticleSystem.particles ParticleSystem.new) + 5
   <= ParticleSystem.maxParticles ParticleSystem.new)%nat
  /\ exists fresh,
       ParticleSystem.particles
         (fst (ParticleSystem.spawnParticles 5 DiffusionModel.new
                 ParticleSystem.new Sample.halves)) = [] ++ fresh
       /\ length fresh = 5%nat.
Proof.
  assert (H : (length (ParticleSystem.particles ParticleSystem.new) + 5
               <= ParticleSystem.maxParticles ParticleSystem.new)%nat)
    by (cbn; lia).
  split; [exact H |].
  destruct (spawn_appends_fresh_particles DiffusionModel.new 5
              ParticleSystem.new Sample.halves H)
    as [fresh [Hps [Hlen _]]].
  exists fresh; split; [exact Hps | exact Hlen].
Defined.

(* ===================================================================== *)
(** ** VisualizationApp: coordinates and colours *)
(* ===================================================================== *)

Section CanvasFacts.

Import VisualizationApp.

Variable this : VisualizationApp.
Hypothesis Hconstructed : constructed this.
Hypothesis Hwidth : 0 < Canvas.width (canvas this).

Lemma worldToCanvas_run (t x : R) :
  worldToCanvas this t x =
    {| CanvasPoint.x := Canvas.width (canvas this) * (0.17 + 0.66 * t);
       CanvasPoint.y := 60 + (2 - x) * 120 |}.
Proof.
  destruct Hconstructed as [_ [_ [Hp [Ht [_ [Hh [Hv Hc]]]]]]].
  unfold worldToCanvas; cbv zeta.
  rewrite Hp, Ht, Hh, Hv, Hc; cbn [fst snd].
  f_equal.
  - replace (1 - 0) with 1 by lra.
    unfold Rdiv; rewrite Rinv_1; lra.
  - replace (2.0 - -2.0) with 4 by lra; lra.
Qed.

Lemma canvasToWorld_run (canvasX canvasY : R) :
  canvasToWorld this canvasX canvasY =
    {| TrajectoryPoint.x := 2 - (canvasY - 60) / 120;
       TrajectoryPoint.t :=
         (canvasX / Canvas.width (canvas this) - 0.05) / 0.9 |}.
Proof.
  destruct Hconstructed as [_ [_ [Hp [Ht [_ [Hh [Hv Hc]]]]]]].
  unfold canvasToWorld; cbv zeta.
  rewrite Hp, Ht, Hh, Hv, Hc; cbn [fst snd].
  set (W := Canvas.width (canvas this)) in *.
  f_equal.
  - replace (600 - 2 * (600 * 0.1)) with 480 by lra; lra.
  - replace (W - 2 * (W * 0.05)) with (W * (9 / 10)) by lra.
    replace 0.05 with (5 / 100) by lra.
    replace 0.9 with (9 / 10) by lra.
    field; lra.
Qed.

(** X16.  With the constructor's layout on a canvas of positive width,
    [canvasToWorld] undoes [worldToCanvas] in the position but not in the
    time: the position comes back as x, the time as
    (0.12 + 0.66 t) / 0.9, which is t only for t = 0.5. *)
Theorem canvasToWorld_after_worldToCanvas (t x : R) :
  let c := worldToCanvas this t x in
  let w := canvasToWorld this (CanvasPoint.x c) (CanvasPoint.y c) in
  TrajectoryPoint.x w = x
  /\ TrajectoryPoint.t w = (0.12 + 0.66 * t) / 0.9
  /\ (TrajectoryPoint.t w = t <-> t = 0.5).
Proof.
  intros c w; unfold w, c.
  rewrite worldToCanvas_run; cbn [CanvasPoint.x CanvasPoint.y].
  rewrite canvasToWorld_run; cbn [TrajectoryPoint.x TrajectoryPoint.t].
  set (W := Canvas.width (canvas this)) in *.
  assert (Et : (W * (0.17 + 0.66 * t) / W - 0.05) / 0.9
               = (0.12 + 0.66 * t) / 0.9).
  { replace (W * (0.17 + 0.66 * t) / W) with (0.17 + 0.66 * t); [lra |].
    unfold Rdiv; rewrite (Rmult_comm W), Rmult_assoc, Rinv_r by lra; lra. }
  rewrite Et.
  split; [lra |]; split; [reflexivity |].
  split; intros H; lra.
Qed.

(** X17.  With the constructor's layout on a canvas of positive width,
    [worldToCanvas] sends every time in [0, 1] and position in [-2, 2]
    into the heatmap rectangle, from 17% to 83% of the width and from
    y = 60 to y = 540 of the 600 rows; later times lie further right and
    larger positions further up. *)
Theorem worldToCanvas_inside_heatmap (t x t' x' : R)
    (Ht : 0 <= t <= 1) (Hx : -2 <= x <= 2) :
  let W := Canvas.width (canvas this) in
  let c := worldToCanvas this t x in
  0.17 * W <= CanvasPoint.x c <= 0.83 * W
  /\ 60 <= CanvasPoint.y c <= 540
  /\ (t <= t' ->
      CanvasPoint.x c <= CanvasPoint.x (worldToCanvas this t' x'))
  /\ (x <= x' ->
      CanvasPoint.y (worldToCanvas this t' x') <= CanvasPoint.y c).
Proof.
  intros W c; unfold c, W.
  rewrite !worldToCanvas_run; cbn [CanvasPoint.x CanvasPoint.y].
  repeat split; intros; nra.
Qed.

End CanvasFacts.

Section ColourFacts.

Import VisualizationApp.

Lemma ltb_true (a b : R) : JS.ltb a b = true <-> a < b.
Proof.
  unfold JS.ltb; destruct (Rlt_dec a b); split; intros; try discriminate;
    auto; contradiction.
Qed.

Lemma ltb_false (a b : R) : JS.ltb a b = false <-> b <= a.
Proof.
  unfold JS.ltb; destruct (Rlt_dec a b); split; intros; try discriminate;
    auto; lra.
Qed.

Lemma Zfloor_between (lo hi : Z) (r : R) :
  IZR lo <= r <= IZR hi -> (lo <= Zfloor r <= hi)%Z.
Proof.
  intros [Hlo Hhi]; split.
  - apply Zfloor_lub; exact Hlo.
  - rewrite <- (ZfloorZ hi); apply Zfloor_le; exact Hhi.
Qed.

Lemma clamp_range (density : R) : 0 <= Rmax 0 (Rmin 1 density) <= 1.
Proof.
  unfold Rmax, Rmin.
  destruct (Rle_dec 1 density); destruct (Rle_dec 0 _); lra.
Qed.

(** X18.  Whatever the density, [densityToColor] yields red, green and
    blue channels that are integers between 0 and 255 and the alpha 0.9;
    densities of 0 or less give (0, 0, 100) and densities of 1 or more
    give (255, 50, 0). *)
Theorem densityToColor_channels (density : R) :
  let c := densityToColor density in
  (0 <= Rgba.r c <= 255)%Z
  /\ (0 <= Rgba.g c <= 255)%Z
  /\ (0 <= Rgba.b c <= 255)%Z
  /\ Rgba.a c = 0.9
  /\ (density <= 0 -> (Rgba.r c, Rgba.g c, Rgba.b c) = (0, 0, 100)%Z)
  /\ (1 <= density -> (Rgba.r c, Rgba.g c, Rgba.b c) = (255, 50, 0)%Z).
Proof.
  intros c; unfold c, densityToColor; cbv zeta.
  pose proof (clamp_range density) as Hd.
  set (d := Rmax 0 (Rmin 1 density)) in *.
  assert (Hlow : density <= 0 -> d = 0).
  { intros H; unfold d, Rmax, Rmin.
    destruct (Rle_dec 1 density); destruct (Rle_dec 0 _); lra. }
  assert (Hhigh : 1 <= density -> d = 1).
  { intros H; unfold d, Rmax, Rmin.
    destruct (Rle_dec 1 density); destruct (Rle_dec 0 _); lra. }
  destruct (JS.ltb d 0.2) eqn:E1;
    [apply ltb_true in E1 | apply ltb_false in E1;
     destruct (JS.ltb d 0.4) eqn:E2;
       [apply ltb_true in E2 | apply ltb_false in E2;
        destruct (JS.ltb d 0.6) eqn:E3;
          [apply ltb_true in E3 | apply ltb_false in E3;
           destruct (JS.ltb d 0.8) eqn:E4;
             [apply ltb_true in E4 | apply ltb_false in E4]]]];
    cbn [Rgba.r Rgba.g Rgba.b Rgba.a];
    (split; [try lia; apply Zfloor_between; lra |]);
    (split; [try lia; apply Zfloor_between; lra |]);
    (split; [try lia; apply Zfloor_between; lra |]);
    (split; [reflexivity |]);
    (split; intros H;
       [specialize (Hlow H) | specialize (Hhigh H)]; try lra).
  - rewrite Hlow.
    replace (150 * (0 / 0.2)) with (IZR 0) by (simpl; lra).
    replace (100 + 155 * (0 / 0.2)) with (IZR 100) by (simpl; lra).
    rewrite !ZfloorZ; reflexivity.
  - rewrite Hhigh.
    replace (150 - 100 * ((1 - 0.8) / 0.2)) with (IZR 50) by (simpl; lra).
    rewrite ZfloorZ; reflexivity.
Qed.

End ColourFacts.

(** The sample application has the constructor's layout and a canvas
    1200 pixels wide. *)
Lemma app_constructed :
  constructed Sample.app
  /\ 0 < Canvas.width (VisualizationApp.canvas Sample.app).
Proof.
  split; [repeat split |].
  cbn; unfold Rmin; destruct (Rle_dec 1200 (1280 - 80)); lra.
Qed.

(** X16 on the sample application, t = 0 and x = 1. *)
Lemma canvasToWorld_after_worldToCanvas_witness :
  constructed Sample.app
  /\ 0 < Canvas.width (VisualizationApp.canvas Sample.app)
  /\ let c := VisualizationApp.worldToCanvas Sample.app 0 1 in
     TrajectoryPoint.x
       (VisualizationApp.canvasToWorld Sample.app (CanvasPoint.x c)
          (CanvasPoint.y c)) = 1.
Proof.
  destruct app_constructed as [H1 H2].
  split; [exact H1 |]; split; [exact H2 |].
  exact (proj1 (canvasToWorld_after_worldToCanvas Sample.app H1 H2 0 1)).
Defined.

(** X17 on the sample application, t = 0.5 and x = 0. *)
Lemma worldToCanvas_inside_heatmap_witness :
  constructed Sample.app
  /\ 0 < Canvas.width (VisualizationApp.canvas Sample.app)
  /\ 0 <= 0.5 <= 1 /\ -2 <= 0 <= 2
  /\ 60 <= CanvasPoint.y (VisualizationApp.worldToCanvas Sample.app 0.5 0)
     <= 540.
Proof.
  destruct app_constructed as [H1 H2].
  assert (H3 : 0 <= 0.5 <= 1) by lra.
  assert (H4 : -2 <= 0 <= 2) by lra.
  split; [exact H1 |]; split; [exact H2 |]; split; [exact H3 |].
  split; [exact H4 |].
  exact (proj1 (proj2 (worldToCanvas_inside_heatmap Sample.app H1 H2
                         0.5 0 0.5 0 H3 H4))).
Defined.

(* ===================================================================== *)
(** ** VisualizationApp: the side curves *)
(* ===================================================================== *)

Section CurveFacts.

Import VisualizationApp.

Variable this : VisualizationApp.
Hypothesis Hconstructed : constructed this.
Hypothesis Hwidth : 0 < Canvas.width (canvas this).

Lemma default_model_regular :
  DiffusionModel.noiseStd DiffusionModel.new <> 0
  /\ DiffusionModel.cleanStd DiffusionModel.new <> 0
  /\ 0 <= DiffusionModel.modeWeight DiffusionModel.new <= 1.
Proof. cbn; repeat split; lra. Qed.

Lemma distributionPoint_bounds (t : R) (isLeft : bool) (i : nat) :
  0 <= t <= 1 -> (i <= 400)%nat ->
  let W := Canvas.width (canvas this) in
  let q := distributionPoint this t isLeft i in
  60 <= CanvasPoint.y q <= 540
  /\ (if isLeft
      then 0.0512 * W <= CanvasPoint.x q <= 0.15 * W
      else 0.85 * W <= CanvasPoint.x q <= 0.9488 * W).
Proof.
  intros Ht Hi W q; unfold q, W.
  destruct Hconstructed as [Hm [_ [Hp [_ [Hmax [Hh [Hv Hc]]]]]]].
  unfold distributionPoint; cbv zeta.
  rewrite Hm, Hp, Hmax, Hh, Hv, Hc; cbn [fst snd CanvasPoint.x CanvasPoint.y].
  set (Wd := Canvas.width (canvas this)) in *.
  assert (Hi' : 0 <= INR i <= 400).
  { split; [apply pos_INR |].
    replace 400 with (INR 400) by (simpl; lra).
    apply le_INR; exact Hi. }
  set (x := -2.0 + INR i * ((2.0 - -2.0) / 400)).
  assert (Hx : -2 <= x <= 2) by (unfold x; lra).
  destruct default_model_regular as [Hn [Hcs Hw]].
  pose proof (noisy_range DiffusionModel.new Hn Hcs x t Hw Ht)
    as [_ [Hd0 Hd1]].
  set (nd := DiffusionModel.getNoisyDistribution DiffusionModel.new x t
             / DiffusionModel.getMaxDensity DiffusionModel.new) in *.
  assert (Hnd : Rmax 0 nd = nd) by (apply Rmax_right; lra).
  rewrite Hnd.
  assert (Hwidth' : Wd * 0.12 * 0.01
                    <= Rmax (Wd * 0.12 * 0.01) (nd * (Wd * 0.12))
                    <= Wd * 0.1).
  { split; [apply Rmax_l |].
    apply Rmax_lub; nra. }
  split.
  - replace (2.0 - -2.0) with 4 by lra; lra.
  - destruct isLeft; lra.
Qed.

(** X19.  With the constructor's layout on a canvas of positive width
    and a time in [0, 1], the path of a side curve has 401 points, all on
    rows 60 to 540, and its width stays between 1% and 5/6 of the strip:
    the left curve lies between 5.12% and 15% of the canvas width, the
    right one between 85% and 94.88%, so neither reaches the heatmap,
    which spans 17% to 83%. *)
Theorem distributionPath_inside_strip (t : R) (isLeft : bool)
    (Ht : 0 <= t <= 1) :
  let W := Canvas.width (canvas this) in
  length (distributionPath this t isLeft) = 401%nat
  /\ Forall (fun q =>
               60 <= CanvasPoint.y q <= 540
               /\ (if isLeft
                   then 0.0512 * W <= CanvasPoint.x q <= 0.15 * W
                   else 0.85 * W <= CanvasPoint.x q <= 0.9488 * W))
       (distributionPath this t isLeft).
Proof.
  intros W; unfold distributionPath; split.
  - rewrite length_map, length_seq; reflexivity.
  - apply Forall_forall; intros q Hq.
    apply in_map_iff in Hq; destruct Hq as [i [<- Hi]].
    apply in_seq in Hi.
    apply distributionPoint_bounds; [exact Ht | lia].
Qed.

End CurveFacts.

(** X19 on the sample application, for the left curve at t = 0. *)
Lemma distributionPath_inside_strip_witness :
  constructed Sample.app
  /\ 0 < Canvas.width (VisualizationApp.canvas Sample.app)
  /\ 0 <= 0 <= 1
  /\ length (VisualizationApp.distributionPath Sample.app 0 true) = 401%nat.
Proof.
  destruct app_constructed as [H1 H2].
  assert (H3 : 0 <= 0 <= 1) by lra.
  split; [exact H1 |]; split; [exact H2 |]; split; [exact H3 |].
  exact (proj1 (distributionPath_inside_strip Sample.app H1 H2 0 true H3)).
Defined.

(* ===================================================================== *)
(** ** VisualizationApp: frames and sessions *)
(* ===================================================================== *)

Section FrameFacts.

Import VisualizationApp.

Lemma same_settings_refl (a : VisualizationApp) : same_settings a a.
Proof. repeat split. Qed.

Lemma update_tick (this : VisualizationApp) (deltaTime currentTime : R)
    (g : JS.Rng) :
  isPaused this = false ->
  let spawned :=
    JS.geb (currentTime - lastSpawnTime this)
           (1000 / particlesPerSecond this) in
  let step := dt this * Rmin (deltaTime / 16) 2.0 in
  let this' := fst (update this deltaTime currentTime g) in
  exists cleaned,
    particleSystem this' =
      fst (run (diffusionModel this)
             (tickCalls spawned cleaned step (stochasticity this))
             (particleSystem this) g)
    /\ same_settings this' this
    /\ lastSpawnTime this' =
         (if spawned then currentTime else lastSpawnTime this).
Proof.
  intros Hp spawned step this'; unfold this', update.
  rewrite Hp; unfold JS.bind; fold spawned.
  destruct spawned.
  - destruct (ParticleSystem.spawnParticles 1 (diffusionModel this)
                (particleSystem this) g) as [ps1 g1] eqn:Es.
    cbn [JS.ret set_lastSpawnTime set_particleSystem particleSystem
         diffusionModel dt stochasticity].
    fold step.
    destruct (ParticleSystem.update ps1 (diffusionModel this) step
                (stochasticity this) g1) as [ps2 g2] eqn:Eu.
    unfold JS.Math_random.
    destruct (JS.ltb (g2 0%nat) 0.1); [exists true | exists false];
      unfold tickCalls; cbn [app]; rewrite !run_cons;
      cbn [call run JS.ret]; rewrite Es; cbn [fst snd]; rewrite Eu;
      (split; [reflexivity | split; [repeat split | reflexivity]]).
  - cbn [JS.ret].
    fold step.
    destruct (ParticleSystem.update (particleSystem this)
                (diffusionModel this) step (stochasticity this) g)
      as [ps2 g2] eqn:Eu.
    unfold JS.Math_random.
    destruct (JS.ltb (g2 0%nat) 0.1); [exists true | exists false];
      unfold tickCalls; cbn [app]; rewrite !run_cons;
      cbn [call run JS.ret fst snd]; rewrite Eu;
      (split; [reflexivity | split; [repeat split | reflexivity]]).
Qed.

(** X20.  With a nonzero spawn rate, one [update(deltaTime)] of a
    running application does to the particle system exactly what these
    calls do, in this order: a spawn of one particle if the spawn
    interval 1000 / particlesPerSecond has passed, an advance by dt * min(deltaTime / 16, 2), and possibly a
    cleanup.  It sets [lastSpawnTime] to the clock reading when it
    spawned and changes no other field; a paused application is returned
    as it is, with the random source untouched. *)
Theorem update_is_spawn_advance_cleanup (this : VisualizationApp)
    (deltaTime currentTime : R) (g : JS.Rng)
    (Hrate : particlesPerSecond this <> 0) :
  (isPaused this = true ->
     update this deltaTime currentTime g = (this, g))
  /\ (isPaused this = false ->
      let spawned :=
        JS.geb (currentTime - lastSpawnTime this)
               (1000 / particlesPerSecond this) in
      let step := dt this * Rmin (deltaTime / 16) 2.0 in
      let this' := fst (update this deltaTime currentTime g) in
      exists cleaned,
        particleSystem this' =
          fst (run (diffusionModel this)
                 (tickCalls spawned cleaned step (stochasticity this))
                 (particleSystem this) g)
        /\ same_settings this' this
        /\ lastSpawnTime this' =
             (if spawned then currentTime else lastSpawnTime this)).
Proof.
  split.
  - intros Hp; unfold update; rewrite Hp; reflexivity.
  - apply update_tick.
Qed.

End FrameFacts.

Section SessionFacts.

Import VisualizationApp.

Lemma particle_invariant_conj (m : DiffusionModel.DiffusionModel)
    (P1 P2 : Particle.Particle -> Prop) :
  particle_invariant m P1 -> particle_invariant m P2 ->
  particle_invariant m (fun p => P1 p /\ P2 p).
Proof.
  intros [N1 U1] [N2 U2]; split.
  - intros x0 g; split; [apply N1 | apply N2].
  - intros p dt s g [H1 H2]; split; [apply U1 | apply U2]; assumption.
Qed.

Section GoodSessions.

Variable P : Particle.Particle -> Prop.
Hypothesis HP : particle_invariant DiffusionModel.new P.

Lemma update_good (this : VisualizationApp) (deltaTime currentTime : R)
    (g : JS.Rng) :
  diffusionModel this = DiffusionModel.new ->
  good P (particleSystem this) ->
  let this' := fst (update this deltaTime currentTime g) in
  diffusionModel this' = DiffusionModel.new
  /\ good P (particleSystem this').
Proof.
  intros Hm Hgood this'; unfold this'.
  destruct (isPaused this) eqn:Hp.
  - unfold update; rewrite Hp; cbn [JS.ret fst]; auto.
  - destruct (update_tick this deltaTime currentTime g Hp)
      as [cleaned [Hps [Hsame _]]].
    split.
    + destruct Hsame as [_ [Hm' _]]; rewrite Hm'; exact Hm.
    + rewrite Hps, Hm; apply good_run; [exact HP | exact Hgood].
Qed.

Lemma animate_good (this : VisualizationApp) (now1 now2 : R) (g : JS.Rng) :
  diffusionModel this = DiffusionModel.new ->
  good P (particleSystem this) ->
  let this' := fst (animate this now1 now2 g) in
  diffusionModel this' = DiffusionModel.new
  /\ good P (particleSystem this').
Proof.
  intros Hm Hgood; unfold animate.
  destruct (isPaused this); [cbn [JS.ret fst]; auto |].
  apply update_good; assumption.
Qed.

Lemma handle_good (e : Event) (app : VisualizationApp) (g : JS.Rng) :
  diffusionModel app = DiffusionModel.new ->
  good P (particleSystem app) ->
  let app' := fst (handle e app g) in
  diffusionModel app' = DiffusionModel.new
  /\ good P (particleSystem app').
Proof.
  intros Hm Hgood.
  destruct e; cbn [handle]; try (cbn; auto; fail).
  - apply animate_good; assumption.
  - cbn; split; [exact Hm | apply good_clear; exact Hgood].
  - destruct (negb (isPaused (set_isPaused (negb (isPaused app)) app)));
      [apply animate_good; assumption | cbn; auto].
Qed.

Lemma session_good (es : list Event) (app : VisualizationApp) (g : JS.Rng) :
  diffusionModel app = DiffusionModel.new ->
  good P (particleSystem app) ->
  good P (particleSystem (fst (session es app g))).
Proof.
  revert app g; induction es as [| e es IH]; intros app g Hm Hgood.
  - exact Hgood.
  - cbn [session]; unfold JS.bind.
    destruct (handle_good e app g Hm Hgood) as [Hm' Hgood'].
    destruct (handle e app g) as [app' g'].
    apply IH; assumption.
Qed.

End GoodSessions.

Lemma session_particles (innerWidth now1 now2 : R) (es : list Event)
    (g : JS.Rng) :
  let ps :=
    ParticleSystem.particles
      (particleSystem (sessionApp innerWidth now1 now2 es g)) in
  (length ps <= 1000)%nat
  /\ Forall (fun p =>
               (1 <= length (Particle.trajectory p) <= 100)%nat
               /\ (Particle.active p = false -> Particle.t p >= 1)
               /\ Particle.t p <= 1
               /\ exists older,
                    Particle.trajectory p = older ++ [currentPoint p]) ps.
Proof.
  intros ps; unfold ps, sessionApp.
  pose proof (particle_invariant_conj _ _ _
                (trajectory_length_invariant DiffusionModel.new)
                (particle_invariant_conj _ _ _
                   (inactive_late_invariant DiffusionModel.new)
                   (particle_invariant_conj _ _ _
                      (clock_invariant DiffusionModel.new)
                      (current_is_last_invariant DiffusionModel.new))))
    as HP.
  destruct (session_good _ HP es (new innerWidth now1 now2) g eq_refl
              (good_new _)) as [Hmax [Hcap Hall]].
  unfold within_capacity in Hcap.
  split; [lia | exact Hall].
Qed.

(** X21.  Whatever events a session delivers (frames with any clock
    readings, slider inputs, reset and pause clicks, resizes), the
    application's population holds at most 1000 particles, and each has a
    trajectory of 1 to 100 points ending at its present position and
    time, a time of at most 1, and is inactive only if its time is 1. *)
Theorem session_keeps_population_sound (innerWidth now1 now2 : R)
    (es : list Event) (g : JS.Rng) :
  let ps :=
    ParticleSystem.particles
      (particleSystem (sessionApp innerWidth now1 now2 es g)) in
  (length ps <= 1000)%nat
  /\ Forall (fun p =>
               (1 <= length (Particle.trajectory p) <= 100)%nat
               /\ (Particle.active p = false -> Particle.t p = 1)
               /\ Particle.t p <= 1
               /\ exists older,
                    Particle.trajectory p =
                      older ++ [ {| TrajectoryPoint.x := Particle.x p;
                                    TrajectoryPoint.t := Particle.t p |} ])
       ps.
Proof.
  intros ps.
  destruct (session_particles innerWidth now1 now2 es g) as [Hlen Hall].
  split; [exact Hlen |].
  eapply Forall_impl; [| exact Hall].
  intros p [H1 [H2 [H3 H4]]].
  split; [exact H1 |]; split; [| split; [exact H3 | exact H4]].
  intros Ha; specialize (H2 Ha); lra.
Qed.

(** X22.  The trail [drawParticle] strokes for a particle of a session
    has at most 100 points, and when it is drawn at all its last point is
    the canvas position of the particle's dot. *)
Theorem trail_ends_at_dot (innerWidth now1 now2 : R) (es : list Event)
    (g : JS.Rng) (p : Particle.Particle)
    (Hp : In p (ParticleSystem.particles
                  (particleSystem (sessionApp innerWidth now1 now2 es g)))) :
  let app := sessionApp innerWidth now1 now2 es g in
  (length (trailPoints app p) <= 100)%nat
  /\ (trailPoints app p = []
      \/ exists earlier,
           trailPoints app p =
             earlier ++ [worldToCanvas app (Particle.t p) (Particle.x p)]).
Proof.
  intros app.
  destruct (session_particles innerWidth now1 now2 es g) as [_ Hall].
  rewrite Forall_forall in Hall.
  destruct (Hall p Hp) as [Hlen [_ [_ [older Hlast]]]].
  unfold trailPoints.
  destruct (showTrails app && (1 <? length (Particle.trajectory p))%nat).
  - split; [rewrite length_map; lia |].
    right; exists (map (fun point =>
                          worldToCanvas app (TrajectoryPoint.t point)
                            (TrajectoryPoint.x point)) older).
    rewrite Hlast, map_app; reflexivity.
  - split; [cbn; lia | left; reflexivity].
Qed.

End SessionFacts.

Section ForwardSessions.

Import VisualizationApp.

Lemma ascending_from_weaken (a b : R) (l : list R) :
  a <= b -> ascending_from b l -> ascending_from a l.
Proof.
  destruct l as [| r l]; cbn; [auto |].
  intros Hab [Hbr Hl]; split; [lra | exact Hl].
Qed.

Lemma forward_new (x0 : R) (g : JS.Rng) : forward (fst (Particle.new x0 0 g)).
Proof.
  rewrite new_run; unfold forward; cbn.
  split; [lra |]; split; [exists []; reflexivity | exact I].
Qed.

Lemma tickCalls_steps (Q : R -> Prop) (spawned cleaned : bool)
    (step stochasticity : R) :
  Q step -> steps_satisfy Q (tickCalls spawned cleaned step stochasticity).
Proof.
  intros H; unfold steps_satisfy, tickCalls.
  destruct spawned; destruct cleaned; repeat constructor; exact H.
Qed.

Lemma update_forward (this : VisualizationApp) (deltaTime currentTime : R)
    (g : JS.Rng) :
  diffusionModel this = DiffusionModel.new ->
  0 <= dt this -> 0 <= deltaTime ->
  Forall forward (ParticleSystem.particles (particleSystem this)) ->
  let this' := fst (update this deltaTime currentTime g) in
  same_settings this' this
  /\ Forall forward (ParticleSystem.particles (particleSystem this')).
Proof.
  intros Hm Hdt Hdelta Hall this'; unfold this'.
  destruct (isPaused this) eqn:Hp.
  - unfold update; rewrite Hp; cbn [JS.ret fst].
    split; [apply same_settings_refl | exact Hall].
  - destruct (update_tick this deltaTime currentTime g Hp)
      as [cleaned [Hps [Hsame _]]].
    split; [exact Hsame |].
    rewrite Hps, Hm.
    apply (run_Forall DiffusionModel.new forward (fun d => 0 <= d)).
    + apply forward_new.
    + intros p d s g0 Hd Hq.
      exact (forward_invariant DiffusionModel.new p d s g0 Hd Hq).
    + apply tickCalls_steps.
      apply Rmult_le_pos; [exact Hdt |].
      unfold Rmin; destruct (Rle_dec (deltaTime / 16) 2.0); lra.
    + exact Hall.
Qed.

Lemma animate_forward (this : VisualizationApp) (now1 now2 : R)
    (g : JS.Rng) :
  diffusionModel this = DiffusionModel.new ->
  0 <= dt this -> lastFrameTime this <= now1 ->
  Forall forward (ParticleSystem.particles (particleSystem this)) ->
  let this' := fst (animate this now1 now2 g) in
  diffusionModel this' = DiffusionModel.new
  /\ dt this' = dt this
  /\ (lastFrameTime this' = now1
      \/ lastFrameTime this' = lastFrameTime this)
  /\ Forall forward (ParticleSystem.particles (particleSystem this')).
Proof.
  intros Hm Hdt Hclock Hall; unfold animate.
  destruct (isPaused this) eqn:Hp.
  - cbn [JS.ret fst]; auto.
  - assert (Hdelta :
      0 <= now1 - (if JS.eqb (lastFrameTime this) 0 then now1
                   else lastFrameTime this))
      by (destruct (JS.eqb (lastFrameTime this) 0); lra).
    destruct (update_forward (set_lastFrameTime now1 this) _ now2 g
                Hm Hdt Hdelta Hall)
      as [[_ [Hm' [_ [Hl [_ [_ [Hd _]]]]]]] Hall'].
    cbn [set_lastFrameTime diffusionModel lastFrameTime dt] in Hm', Hl, Hd.
    split; [rewrite Hm'; exact Hm |].
    split; [exact Hd |]; split; [left; exact Hl | exact Hall'].
Qed.

Lemma session_forward (es : list Event) :
  forall (app : VisualizationApp) (g : JS.Rng),
    diffusionModel app = DiffusionModel.new ->
    0 <= dt app ->
    ascending_from (lastFrameTime app) (frameReadings es) ->
    Forall forward (ParticleSystem.particles (particleSystem app)) ->
    Forall forward
      (ParticleSystem.particles (particleSystem (fst (session es app g)))).
Proof.
  induction es as [| e es IH]; intros app g Hm Hdt Hclock Hall.
  - exact Hall.
  - cbn [session]; unfold JS.bind.
    assert (Hstep :
      let app' := fst (handle e app g) in
      diffusionModel app' = DiffusionModel.new
      /\ 0 <= dt app'
      /\ ascending_from (lastFrameTime app') (frameReadings es)
      /\ Forall forward (ParticleSystem.particles (particleSystem app'))).
    { destruct e; cbn [handle frameReadings] in *;
        try (cbn; auto; fail).
      - destruct Hclock as [Hle Hrest].
        destruct (animate_forward app now1 now2 g Hm Hdt Hle Hall)
          as [Hm' [Hd' [Hl' Hall']]].
        split; [exact Hm' |]; split; [rewrite Hd'; exact Hdt |].
        split; [| exact Hall'].
        destruct Hl' as [-> | ->];
          [exact Hrest | exact (ascending_from_weaken _ _ _ Hle Hrest)].
      - destruct Hclock as [Hle Hrest].
        destruct (negb (isPaused (set_isPaused (negb (isPaused app)) app))).
        + destruct (animate_forward
                      (set_isPaused (negb (isPaused app)) app) now1 now2 g
                      Hm Hdt Hle Hall) as [Hm' [Hd' [Hl' Hall']]].
          cbn [set_isPaused dt lastFrameTime] in Hd', Hl'.
          split; [exact Hm' |]; split; [rewrite Hd'; exact Hdt |].
          split; [| exact Hall'].
          destruct Hl' as [-> | ->];
            [exact Hrest | exact (ascending_from_weaken _ _ _ Hle Hrest)].
        + cbn; repeat split; auto.
          exact (ascending_from_weaken _ _ _ Hle Hrest). }
    destruct (handle e app g) as [app' g'].
    destruct Hstep as [Hm' [Hd' [Hc' Hall']]].
    apply IH; assumption.
Qed.

(** X23.  In a session whose frame clock never goes back (the readings
    [animate()] takes are nondecreasing, starting from the constructor's
    second reading), every particle has a time in [0, 1] and the times
    recorded along its trajectory never decrease, whatever the other
    events and clock readings are. *)
Theorem session_clock_never_goes_back (innerWidth now1 now2 : R)
    (es : list Event) (g : JS.Rng)
    (Hclock : ascending_from now2 (frameReadings es)) :
  Forall (fun p =>
            0 <= Particle.t p <= 1
            /\ nondecreasing (map TrajectoryPoint.t (Particle.trajectory p)))
    (ParticleSystem.particles
       (particleSystem (sessionApp innerWidth now1 now2 es g))).
Proof.
  destruct (session_particles innerWidth now1 now2 es g) as [_ Hsound].
  pose proof (session_forward es (new innerWidth now1 now2) g eq_refl
                ltac:(cbn; lra) Hclock (Forall_nil _)) as Hfw.
  fold (sessionApp innerWidth now1 now2 es g) in Hfw.
  rewrite Forall_forall in *.
  intros p Hp.
  destruct (Hsound p Hp) as [_ [_ [Hle _]]].
  destruct (Hfw p Hp) as [H0 [_ Hs]].
  split; [lra | exact Hs].
Qed.

End ForwardSessions.

(** A first frame 200 ms after construction spawns a particle: the
    population of the sample session is not empty. *)
Lemma first_frame_spawns :
  exists p,
    In p (ParticleSystem.particles
            (VisualizationApp.particleSystem
               (sessionApp 1280 0 0 [Frame 200 200] Sample.halves))).
Proof.
  unfold sessionApp; cbn [session handle]; unfold JS.bind, JS.ret.
  unfold VisualizationApp.animate.
  cbn [VisualizationApp.isPaused VisualizationApp.new].
  set (this := VisualizationApp.set_lastFrameTime 200
                 (VisualizationApp.new 1280 0 0)).
  set (delta := 200 - _).
  destruct (update_tick this delta 200 Sample.halves eq_refl)
    as [cleaned [Hps _]].
  destruct (VisualizationApp.update this delta 200 Sample.halves)
    as [this' g'].
  cbn [fst] in *; rewrite Hps; clear Hps.
  assert (Hspawn :
    JS.geb (200 - VisualizationApp.lastSpawnTime this)
      (1000 / VisualizationApp.particlesPerSecond this) = true)
    by (apply geb_true; cbn; lra).
  rewrite Hspawn.
  change (VisualizationApp.diffusionModel this) with DiffusionModel.new.
  change (VisualizationApp.particleSystem this) with ParticleSystem.new.
  set (cs := tickCalls true cleaned _ _).
  pose proof (good_run DiffusionModel.new _
                (trajectory_length_invariant DiffusionModel.new) cs
                ParticleSystem.new Sample.halves (good_new _))
    as [_ [_ Hall]].
  assert (Hlen :
    length (ParticleSystem.particles
              (fst (run DiffusionModel.new cs ParticleSystem.new
                      Sample.halves))) = 1%nat).
  { unfold cs, tickCalls; cbn [app].
    rewrite run_cons; cbn [call].
    rewrite spawn_one_fresh.
    rewrite run_cons; cbn [call].
    rewrite update_singleton; cbn [fst snd].
    destruct cleaned; cbn [run call JS.ret JS.bind fst
                           ParticleSystem.cleanup ParticleSystem.particles];
      [| reflexivity].
    cbn [filter].
    set (q := fst (Particle.update _ _ _ _ _)).
    pose proof (proj2 (trajectory_length_invariant DiffusionModel.new)) as Hq.
    cbv beta in Hq.
    assert (Htraj : (1 <= length (Particle.trajectory q) <= 100)%nat).
    { apply Hq; rewrite new_run; cbn; lia. }
    replace (0 <? length (Particle.trajectory q))%nat with true
      by (symmetry; apply Nat.ltb_lt; lia).
    rewrite orb_true_r; reflexivity. }
  destruct (ParticleSystem.particles _) as [| p ps]; [discriminate |].
  exists p; left; reflexivity.
Qed.

(** X22 on a particle of the sample session after its first frame. *)
Lemma trail_ends_at_dot_witness :
  exists p,
    In p (ParticleSystem.particles
            (VisualizationApp.particleSystem
               (sessionApp 1280 0 0 [Frame 200 200] Sample.halves)))
    /\ (length (VisualizationApp.trailPoints
                  (sessionApp 1280 0 0 [Frame 200 200] Sample.halves) p)
        <= 100)%nat.
Proof.
  destruct first_frame_spawns as [p Hp].
  exists p; split; [exact Hp |].
  exact (proj1 (trail_ends_at_dot 1280 0 0 [Frame 200 200] Sample.halves
                  p Hp)).
Defined.

(** X23 on a session of two frames 16 ms apart. *)
Lemma session_clock_never_goes_back_witness :
  ascending_from 0 (frameReadings [Frame 200 200; Frame 216 216])
  /\ Forall (fun p =>
               0 <= Particle.t p <= 1
               /\ nondecreasing
                    (map TrajectoryPoint.t (Particle.trajectory p)))
       (ParticleSystem.particles
          (VisualizationApp.particleSystem
             (sessionApp 1280 0 0 [Frame 200 200; Frame 216 216]
                Sample.halves))).
Proof.
  assert (H : ascending_from 0
                (frameReadings [Frame 200 200; Frame 216 216]))
    by (cbn; lra).
  split; [exact H |].
  exact (session_clock_never_goes_back 1280 0 0
           [Frame 200 200; Frame 216 216] Sample.halves H).
Defined.

(* ===================================================================== *)
(** ** VisualizationApp: the heatmap grid *)
(* ===================================================================== *)

Section HeatmapFacts.

Import VisualizationApp.

Variable this : VisualizationApp.
Hypothesis Hconstructed : constructed this.
Hypothesis Hwidth : 0 < Canvas.width (canvas this).



End HeatmapFacts.


(** X18 at density 0. *)
Lemma densityToColor_channels_witness :
  0 <= 0
  /\ (Rgba.r (VisualizationApp.densityToColor 0),
      Rgba.g (VisualizationApp.densityToColor 0),
      Rgba.b (VisualizationApp.densityToColor 0)) = (0, 0, 100)%Z.
Proof.
  assert (H : 0 <= 0) by lra.
  split; [exact H |].
  destruct (densityToColor_channels 0) as [_ [_ [_ [_ [Hlow _]]]]].
  exact (Hlow H).
Defined.

(** X20 on the sample application, 200 ms after its construction. *)
Lemma update_is_spawn_advance_cleanup_witness :
  VisualizationApp.particlesPerSecond Sample.app <> 0
  /\ VisualizationApp.isPaused Sample.app = false
  /\ exists cleaned,
       VisualizationApp.particleSystem
         (fst (VisualizationApp.update Sample.app 16 200 Sample.halves)) =
       fst (run (VisualizationApp.diffusionModel Sample.app)
              (tickCalls
                 (JS.geb (200 - VisualizationApp.lastSpawnTime Sample.app)
                    (1000 / VisualizationApp.particlesPerSecond Sample.app))
                 cleaned
                 (VisualizationApp.dt Sample.app * Rmin (16 / 16) 2.0)
                 (VisualizationApp.stochasticity Sample.app))
              (VisualizationApp.particleSystem Sample.app) Sample.halves).
Proof.
  assert (H : VisualizationApp.isPaused Sample.app = false) by reflexivity.
  assert (Hr : VisualizationApp.particlesPerSecond Sample.app <> 0)
    by (cbn; lra).
  split; [exact Hr |]; split; [exact H |].
  destruct (proj2 (update_is_spawn_advance_cleanup Sample.app 16 200
                     Sample.halves Hr) H) as [cleaned [Hps _]].
  exists cleaned; exact Hps.
Defined.
